(** * Device provisioning and reconciliation: identity codec, inventory
      projection and upsert protocol

    The dashboard code ([DeviceDashboard.jsx], [DeviceRow.jsx]) is embedded
    as pure functions and explicit state passing over the React state of the
    component.  The backend orchestrator is not part of the frontend sources;
    the parts of it that are needed are modelled from the specification and
    are marked as such. *)

From Stdlib Require Import String Ascii ZArith List Lia Bool Sorted Permutation.
From stdpp Require Import base list pretty.
Import ListNotations.
Local Open Scope string_scope.
Local Open Scope Z_scope.

(** ** JavaScript string primitives used by the codec

    A JavaScript string is a sequence of code units; the four primitives
    below only compare code units with those of ["device-"] and ["-"], so the
    model does not depend on the width of a unit. *)

Module JsString.

Definition dash : ascii := "-"%char.
Definition space : ascii := " "%char.

(** [s.length] *)
Definition len (s : string) : Z := Z.of_nat (String.length s).

(** [s.startsWith(p)] *)
Fixpoint startsWith (s p : string) {struct p} : bool :=
  match p with
  | EmptyString => true
  | String c p' =>
      match s with
      | EmptyString => false
      | String d s' => Ascii.eqb d c && startsWith s' p'
      end
  end.

(** Index normalisation shared by both arguments of [slice]: a negative
    index counts from the end, and the result is clamped to [0, length]. *)
Definition clampIndex (length i : Z) : Z :=
  if i <? 0 then Z.max (length + i) 0 else Z.min i length.

(** [s.slice(start, end)] *)
Definition slice (s : string) (start end_ : Z) : string :=
  let from := clampIndex (len s) start in
  let to := clampIndex (len s) end_ in
  substring (Z.to_nat from) (Z.to_nat (Z.max (to - from) 0)) s.

(** [s.slice(start)]: the end defaults to [s.length]. *)
Definition sliceFrom (s : string) (start : Z) : string :=
  slice s start (len s).

(** [s.lastIndexOf(needle)]: the largest index at which [needle] occurs,
    or [-1].  The scan keeps the latest match seen so far. *)
Fixpoint lastIndexOf_scan (s needle : string) (i found : Z) : Z :=
  let found' := if startsWith s needle then i else found in
  match s with
  | EmptyString => found'
  | String _ s' => lastIndexOf_scan s' needle (i + 1) found'
  end.

Definition lastIndexOf (s needle : string) : Z :=
  lastIndexOf_scan s needle 0 (-1).

(** [s.replace(/c/g, d)] for a single literal character [c]. *)
Fixpoint replaceAll (c d : ascii) (s : string) : string :=
  match s with
  | EmptyString => EmptyString
  | String a s' => String (if Ascii.eqb a c then d else a) (replaceAll c d s')
  end.

(** Occurrence test, used to state properties only. *)
Fixpoint contains (c : ascii) (s : string) : bool :=
  match s with
  | EmptyString => false
  | String a s' => Ascii.eqb a c || contains c s'
  end.

End JsString.
Import JsString.

(** ** Identity codec, decode side: [parseDeviceFields]
    (DeviceDashboard.jsx, lines 6-17) *)

Record DeviceFields := mkDeviceFields {
  deviceName : string;
  deviceId : string
}.

(** A JavaScript value that is either a string or absent ([undefined] or
    [null]) is an [option string]; [!v] holds of the absent value and of the
    empty string. *)
Definition falsy (v : option string) : bool :=
  match v with
  | None => true
  | Some s => (len s =? 0)
  end.

(** Line 8: [appName.startsWith("device-") ? appName.slice("device-".length) : appName] *)
Definition trimmed (appName : string) : string :=
  if startsWith appName "device-" then sliceFrom appName (len "device-")
  else appName.

Definition parseDeviceFields (appName : option string) : DeviceFields :=
  match appName with
  | None => mkDeviceFields EmptyString EmptyString
  | Some appName =>
      if falsy (Some appName) then mkDeviceFields EmptyString EmptyString
      else
        let trimmed := trimmed appName in
        let lastDash := lastIndexOf trimmed "-" in
        if lastDash =? -1 then mkDeviceFields trimmed EmptyString
        else
          let rawName := slice trimmed 0 lastDash in
          let rawId := sliceFrom trimmed (lastDash + 1) in
          mkDeviceFields (replaceAll dash space rawName) rawId
  end.

(** ** Inventory reconciliation: [fetchDevices]
    (DeviceDashboard.jsx, lines 46-82) *)

(** [a || d] where [a] is a string or absent and [d] is a string. *)
Definition orElse (a : option string) (d : string) : string :=
  match a with
  | Some s => if falsy a then d else s
  | None => d
  end.

(** [a || b] where both sides are a string or absent. *)
Definition orValue (a b : option string) : option string :=
  if falsy a then b else a.

(** One item of [data.apps] as the [/argocd/apps] endpoint returns it: a
    JSON object whose fields are strings; a field that is missing or [null]
    is [None]. *)
Module App.
Record t := mk {
  appName : option string;
  name : option string;
  namespace : option string;
  cluster : option string;
  health : option string;
  sync : option string;
  lastSync : option string;
  repoUrl : option string;
  clusterFqdn : option string
}.
End App.

(** The record built by the callback of [map] (lines 59-71). *)
Module Device.
Record t := mk {
  deviceName : string;
  deviceId : string;
  namespace : option string;
  cluster : option string;
  health : option string;
  syncStatus : option string;
  lastSync : option string;
  repoUrl : string;
  clusterFqdn : string;
  appName : option string;
  name : option string
}.
End Device.

(** Lines 56-72: the callback applied to every item. *)
Definition normalize (clusterFqdn : string) (app : App.t) : Device.t :=
  let applicationName := orValue (App.appName app) (App.name app) in
  let fields := parseDeviceFields applicationName in
  {| Device.deviceName := deviceName fields;
     Device.deviceId := deviceId fields;
     Device.namespace := App.namespace app;
     Device.cluster := App.cluster app;
     Device.health := App.health app;
     Device.syncStatus := App.sync app;
     Device.lastSync := App.lastSync app;
     Device.repoUrl := orElse (App.repoUrl app) "#";
     Device.clusterFqdn := orElse (App.clusterFqdn app) (orElse (Some clusterFqdn) EmptyString);
     Device.appName := applicationName;
     Device.name := applicationName |}.

(** What [await fetch(...)] and [await res.json()] can deliver. *)
Record AppsPayload := mkPayload {
  payload_error : option string;          (* data.error *)
  payload_apps : option (list App.t)      (* data.apps *)
}.

Inductive Body (A : Type) :=
| NotJson (message : string)              (* res.json() rejects *)
| Json (data : A).
Arguments NotJson {A} message.
Arguments Json {A} data.

Inductive FetchResult (A : Type) :=
| Rejected (message : string)             (* fetch() rejects: transport failure *)
| Response (status : Z) (body : Body A).
Arguments Rejected {A} message.
Arguments Response {A} status body.

(** [res.ok]: the status is in the range 200-299. *)
Definition ok (status : Z) : bool := (200 <=? status) && (status <=? 299).

(** React state of the dashboard touched by [fetchDevices], and the setter
    calls that change it. *)
Record DashboardState := mkDashboard {
  devices : list Device.t;
  loading : bool;
  error : string;
  connected : bool
}.

Inductive Update :=
| setLoading (b : bool)
| setError (message : string)
| setDevices (l : list Device.t)
| setConnected (b : bool).

Definition apply (s : DashboardState) (u : Update) : DashboardState :=
  match u with
  | setLoading b => mkDashboard (devices s) b (error s) (connected s)
  | setError m => mkDashboard (devices s) (loading s) m (connected s)
  | setDevices l => mkDashboard l (loading s) (error s) (connected s)
  | setConnected b => mkDashboard (devices s) (loading s) (error s) b
  end.

Definition run (us : list Update) (s : DashboardState) : DashboardState :=
  fold_left apply us s.

(** Every state the component goes through while the updates are applied,
    the initial one included. *)
Fixpoint states (us : list Update) (s : DashboardState) : list DashboardState :=
  match us with
  | [] => [s]
  | u :: us' => s :: states us' (apply s u)
  end.

Inductive Outcome (A : Type) :=
| Returned (a : A)
| Thrown (message : string).
Arguments Returned {A} a.
Arguments Thrown {A} message.

(** The body of the [try] block (lines 50-75): either it throws an [Error]
    with a message before any setter is called, or it reaches the two
    setters at its end. *)
Definition fetchDevices_try (clusterFqdn : string) (r : FetchResult AppsPayload)
  : Outcome (list Update) :=
  match r with
  | Rejected message => Thrown message
  | Response status body =>
      if negb (ok status) then Thrown ("HTTP " +:+ pretty status)
      else
        match body with
        | NotJson message => Thrown message
        | Json data =>
            if negb (falsy (payload_error data))
            then Thrown (orElse (payload_error data) EmptyString)
            else
              let normalized :=
                map (normalize clusterFqdn) (default [] (payload_apps data)) in
              Returned [setDevices normalized; setConnected true]
        end
  end.

(** [fetchDevices]: the setter calls it makes, in order, for a given outcome
    of the request. *)
Definition fetchDevices (clusterFqdn : string) (r : FetchResult AppsPayload)
  : list Update :=
  [setLoading true; setError EmptyString]
  ++ match fetchDevices_try clusterFqdn r with
     | Returned us => us
     | Thrown message => [setError message; setConnected false]
     end
  ++ [setLoading false].

(** ** [StatusBadge] (DeviceRow.jsx)

    [map[status] || map.Unknown] looks [status] up in an object literal, so
    the lookup also sees what the literal inherits from [Object.prototype];
    those members are functions or objects, hence truthy. *)

Definition unknownStyle : string := "bg-gray-100 text-gray-800".

Definition badgeStyles : list (string * string) :=
  [ ("Healthy", "bg-green-100 text-green-800");
    ("Degraded", "bg-yellow-100 text-yellow-800");
    ("Error", "bg-red-100 text-red-800");
    ("Unknown", unknownStyle) ].

Definition objectPrototypeKeys : list string :=
  [ "constructor"; "__proto__"; "hasOwnProperty"; "isPrototypeOf";
    "propertyIsEnumerable"; "toLocaleString"; "toString"; "valueOf";
    "__defineGetter__"; "__defineSetter__"; "__lookupGetter__";
    "__lookupSetter__" ].

Inductive StyleValue :=
| Style (classes : string)
| InheritedMember (key : string).

Fixpoint lookupOwn (key : string) (m : list (string * string)) : option string :=
  match m with
  | [] => None
  | (k, v) :: m' => if String.eqb k key then Some v else lookupOwn key m'
  end.

(** The property key a value is converted to. *)
Definition propertyKey (status : option string) : string :=
  match status with
  | Some s => s
  | None => "undefined"
  end.

Definition lookupStyle (status : option string) : option StyleValue :=
  let key := propertyKey status in
  match lookupOwn key badgeStyles with
  | Some v => Some (Style v)
  | None =>
      if existsb (String.eqb key) objectPrototypeKeys
      then Some (InheritedMember key) else None
  end.

Record Badge := mkBadge {
  badge_cls : StyleValue;
  badge_text : option string               (* the child [{status}] *)
}.

Definition StatusBadge (status : option string) : Badge :=
  let cls :=
    match lookupStyle status with
    | Some v => v
    | None => Style unknownStyle             (* map.Unknown *)
    end in
  mkBadge cls status.

(** ** Identity codec, encode side *)

Module Identity.
Record t := mk { name : string; id : string }.
End Identity.

(** [decode]: the identity read back from a resource name. *)
Definition decode (canonicalName : string) : Identity.t :=
  let fields := parseDeviceFields (Some canonicalName) in
  Identity.mk (deviceName fields) (deviceId fields).

Definition lowercase (c : ascii) : ascii :=
  let n := N_of_ascii c in
  if ((65 <=? n) && (n <=? 90))%N then ascii_of_N (n + 32) else c.

Definition isWhitespace (c : ascii) : bool :=
  let n := N_of_ascii c in
  ((9 <=? n) && (n <=? 13) || (n =? 32))%N.

(** A usual reading of the characters a resource name may keep: lower-case
    letters, digits and the hyphen. *)
Definition labelChar (c : ascii) : bool :=
  let n := N_of_ascii c in
  ((97 <=? n) && (n <=? 122) || (48 <=? n) && (n <=? 57) || (n =? 45))%N.

Section Encode.

(** The set of characters that [slug] keeps is not fixed by the
    specification; it is a parameter of the encoder. *)
Variable valid : ascii -> bool.

(** Modelled from the spec: the encoder lives in the backend, which is not
    among the frontend sources.  [slug] lowercases and replaces whitespace
    and invalid characters with [-]. *)
Definition slugChar (c : ascii) : ascii :=
  let c' := lowercase c in
  if isWhitespace c' || negb (valid c') then dash else c'.

Fixpoint slug (s : string) : string :=
  match s with
  | EmptyString => EmptyString
  | String c s' => String (slugChar c) (slug s')
  end.

(** Modelled from the spec: the canonical resource name is
    ["device-" + slug(name) + "-" + id]. *)
Definition encode (identity : Identity.t) : string :=
  "device-" +:+ slug (Identity.name identity) +:+ "-" +:+ Identity.id identity.

(** A character of a device name that survives encoding and decoding: a
    space, or a character other than [-] that [slug] leaves alone. *)
Definition survives (c : ascii) : bool :=
  Ascii.eqb c space || Ascii.eqb (slugChar c) c && negb (Ascii.eqb c dash).

Fixpoint allChars (p : ascii -> bool) (s : string) : bool :=
  match s with
  | EmptyString => true
  | String c s' => p c && allChars p s'
  end.

End Encode.

(** ** Application descriptor builder *)

Record SyncPolicy := mkSyncPolicy {
  automated : bool;
  createNamespace : bool
}.

Module Descriptor.
Record t := mk {
  name : string;
  repoUrl : string;
  targetRevision : string;
  path : string;
  destinationServer : string;
  destinationNamespace : string;
  project : string;
  syncPolicy : SyncPolicy
}.
End Descriptor.

(** Platform configuration of the builder. *)
Record BuilderConfig := mkConfig {
  validChar : ascii -> bool;
  defaultBranch : string;
  configuredNamespace : string
}.

Definition nonEmptyOr (s d : string) : string :=
  match s with
  | EmptyString => d
  | _ => s
  end.

(** Modelled from the spec: [build] is part of the backend.  The name is the
    canonical resource name, the revision, path, project and sync policy are
    fixed, and an empty destination falls back to the platform default. *)
Definition build (cfg : BuilderConfig) (identity : Identity.t)
    (repoUrl destinationServer destinationNamespace : string) : Descriptor.t :=
  {| Descriptor.name := encode (validChar cfg) identity;
     Descriptor.repoUrl := repoUrl;
     Descriptor.targetRevision := defaultBranch cfg;
     Descriptor.path := ".";
     Descriptor.destinationServer :=
       nonEmptyOr destinationServer "https://kubernetes.default.svc";
     Descriptor.destinationNamespace :=
       nonEmptyOr destinationNamespace (configuredNamespace cfg);
     Descriptor.project := "default";
     Descriptor.syncPolicy := mkSyncPolicy true true |}.

(** ** Upsert orchestrator

    The orchestrator runs in the backend, which is not among the frontend
    sources.  The controller is reached through a transport that answers one
    request at a time and may change the controller's state; the
    orchestrator records every request it sends. *)

(** Modelled from the spec: the requests of the controller's REST surface
    (section 6); the backend that sends them is missing. *)
Inductive Request :=
| PostApplications (body : Descriptor.t)                 (* POST /applications *)
| PutApplication (name : string) (body : Descriptor.t)   (* PUT /applications/{name} *)
| PostSync (name : string) (prune : bool)                (* POST /applications/{name}/sync *)
| GetApplications.                                       (* GET /applications *)

(** Modelled from the spec: what comes back from the controller, either no
    answer at all or a status with a raw body. *)
Inductive Reply :=
| NoReply (message : string)              (* network failure or timeout *)
| Http (status : Z) (body : string).

(** Modelled from the spec: the fatal error kinds of section 7. *)
Inductive Error :=
| ValidationError (message : string)
| ControllerRejected (status : Z) (body : string)
| TransportError (message : string).

Definition is2xx (status : Z) : bool := (200 <=? status) && (status <=? 299).

(** The failure a reply stands for, if any. *)
Definition failureOf (r : Reply) : option Error :=
  match r with
  | NoReply message => Some (TransportError message)
  | Http status body =>
      if is2xx status then None else Some (ControllerRejected status body)
  end.

Inductive Status := deployed | yaml_only.

(** Modelled from the spec: the output contract of section 4.3; a failed
    sync is reported in a field of its own. *)
Record Output := mkOutput {
  status : Status;
  descriptor : Descriptor.t;
  rawControllerResponse : string;
  syncFailure : option Error
}.

Inductive Mode := Deploy | YamlOnly.

(** Modelled from the spec: the states of the orchestrator's state machine
    (section 4.3), which is part of the missing backend. *)
Inductive Phase :=
| Building
| Creating (d : Descriptor.t)
| Created (d : Descriptor.t) (raw : string)
| Conflict (d : Descriptor.t)
| Updating (d : Descriptor.t)
| Syncing (d : Descriptor.t) (raw : string)
| Deployed (d : Descriptor.t) (raw : string) (sync : option Error)
| Failed (e : Error).

Definition terminal (p : Phase) : bool :=
  match p with
  | Deployed _ _ _ | Failed _ => true
  | _ => false
  end.

(** Modelled from the spec: a token, as the id of a device has to be, is a
    non-empty string without whitespace. *)
Definition isToken (s : string) : bool :=
  negb (falsy (Some s)) && allChars (fun c => negb (isWhitespace c)) s.

(** Modelled from the spec: the input check of section 7, made by the
    missing backend before anything is built or sent.  An empty repository
    URL and an identity whose id is not a token are refused. *)
Definition validate (identity : Identity.t) (repoUrl : string) : option Error :=
  if falsy (Some repoUrl) then Some (ValidationError "repository URL is empty")
  else if negb (isToken (Identity.id identity))
       then Some (ValidationError "identity is malformed")
       else None.

Section Orchestrator.

Context {W : Type}.
Variable transport : Request -> W -> Reply * W.
Variable cfg : BuilderConfig.

(** Computations that talk to the controller: the controller's state and
    the log of requests sent so far are threaded through. *)
Definition Net (A : Type) : Type := W * list Request -> A * (W * list Request).

Definition ret {A} (a : A) : Net A := fun s => (a, s).

Definition bind {A B} (m : Net A) (k : A -> Net B) : Net B :=
  fun s => let '(a, s') := m s in k a s'.

Notation "'let*' x := m 'in' k" := (bind m (fun x => k))
  (at level 10, x name, m at level 100, k at level 200).

Definition send (rq : Request) : Net Reply :=
  fun '(w, log) =>
    let '(r, w') := transport rq w in (r, (w', (log ++ [rq])%list)).

Variables (identity : Identity.t)
          (repoUrl destinationServer destinationNamespace : string).

(** Modelled from the spec: where a reply to the create request leads, 2xx
    to [Created], 409 to [Conflict], anything else to [Failed]. *)
Definition afterCreate (d : Descriptor.t) (r : Reply) : Phase :=
  match r with
  | NoReply message => Failed (TransportError message)
  | Http st body =>
      if is2xx st then Created d body
      else if st =? 409 then Conflict d
      else Failed (ControllerRejected st body)
  end.

(** Modelled from the spec: where a reply to the replace request leads;
    the sync step is entered only after a successful update. *)
Definition afterUpdate (d : Descriptor.t) (r : Reply) : Phase :=
  match r with
  | NoReply message => Failed (TransportError message)
  | Http st body =>
      if is2xx st then Syncing d body
      else Failed (ControllerRejected st body)
  end.

(** Modelled from the spec: one transition of the orchestrator's state
    machine.  Input that does not pass [validate] fails in [Building],
    before any request.  A failed sync is recorded in the [Deployed] state;
    it does not lead to [Failed]. *)
Definition step (p : Phase) : Net Phase :=
  match p with
  | Building =>
      ret match validate identity repoUrl with
          | Some e => Failed e
          | None =>
              Creating (build cfg identity repoUrl destinationServer destinationNamespace)
          end
  | Creating d =>
      let* r := send (PostApplications d) in ret (afterCreate d r)
  | Created d raw => ret (Syncing d raw)
  | Conflict d => ret (Updating d)
  | Updating d =>
      let* r := send (PutApplication (Descriptor.name d) d) in ret (afterUpdate d r)
  | Syncing d raw =>
      let* r := send (PostSync (Descriptor.name d) true) in
      ret (Deployed d raw (failureOf r))
  | Deployed _ _ _ | Failed _ => ret p
  end.

Fixpoint steps (n : nat) (p : Phase) : Net Phase :=
  match n with
  | O => ret p
  | S n' => let* p' := step p in steps n' p'
  end.

(** Modelled from the spec: a whole run of the orchestrator.  The longest
    path, through [Conflict], takes five transitions. *)
Definition upsert : Net Phase := steps 5 Building.

Definition resultOf (p : Phase) : option (Error + Output) :=
  match p with
  | Deployed d raw sync => Some (inr (mkOutput deployed d raw sync))
  | Failed e => Some (inl e)
  | _ => None
  end.

(** Modelled from the spec: the operation the backend offers to the
    caller.  In [YamlOnly] mode it checks the input and returns the
    builder's output, and does nothing else. *)
Definition upsertAndSync (mode : Mode) : Net (option (Error + Output)) :=
  match mode with
  | YamlOnly =>
      ret (Some match validate identity repoUrl with
                | Some e => inl e
                | None =>
                    inr (mkOutput yaml_only
                           (build cfg identity repoUrl destinationServer
                              destinationNamespace)
                           EmptyString None)
                end)
  | Deploy => let* p := upsert in ret (resultOf p)
  end.

End Orchestrator.

Section MockController.

Variable syncFails : string -> bool.

Definition named (n : string) (d : Descriptor.t) : bool :=
  String.eqb (Descriptor.name d) n.

(** Modelled from the spec: a mock controller that tracks which resources
    exist (section 8), standing for the external controller.  Its state is
    the list of resources it holds; creating a name that exists is a
    conflict, replacing overwrites the resource of that name, and
    [syncFails] says for which names the sync call is refused. *)
Definition mockController (rq : Request) (w : list Descriptor.t)
  : Reply * list Descriptor.t :=
  match rq with
  | PostApplications d =>
      if existsb (named (Descriptor.name d)) w
      then (Http 409 "already exists", w)
      else (Http 200 "created", (w ++ [d])%list)
  | PutApplication n d =>
      if existsb (named n) w
      then (Http 200 "updated", map (fun r => if named n r then d else r) w)
      else (Http 404 "not found", w)
  | PostSync n prune =>
      if existsb (named n) w
      then (if syncFails n then (Http 500 "sync failed", w) else (Http 200 "synced", w))
      else (Http 404 "not found", w)
  | GetApplications => (Http 200 "listed", w)
  end.

End MockController.

(** A transport that plays back prepared replies, one per request. *)
Definition scripted (rq : Request) (w : list Reply) : Reply * list Reply :=
  match w with
  | r :: w' => (r, w')
  | [] => (NoReply "no reply prepared", [])
  end.

(** The same upsert performed [n] times in a row; the results are collected
    in order. *)
Fixpoint repeatUpsert {W} (transport : Request -> W -> Reply * W)
    (cfg : BuilderConfig) (identity : Identity.t)
    (repoUrl destinationServer destinationNamespace : string)
    (n : nat) (s : W * list Request)
  : list (option (Error + Output)) * (W * list Request) :=
  match n with
  | O => ([], s)
  | S n' =>
      let '(r, s1) :=
        upsertAndSync transport cfg identity repoUrl destinationServer
          destinationNamespace Deploy s in
      let '(rs, s2) :=
        repeatUpsert transport cfg identity repoUrl destinationServer
          destinationNamespace n' s1 in
      (r :: rs, s2)
  end.

(** ** Workflow step 2: [handleGenerateYaml]
    (DeviceWorkflowApp.jsx, lines 79-115)

    The frontend never addresses the controller: its single request goes to
    the backend, with the flag [use_argocd_api] telling which mode is
    wanted. *)
Module Workflow.

Record Inputs := mkInputs {
  repoUrl : string;
  deviceId : string;
  deviceName : string;
  destinationServer : string;
  destinationNamespace : string;
  clusterFqdn : string
}.

Record HttpCall := mkCall {
  url : string;
  method : string;
  form : list (string * string)          (* FormData, in append order *)
}.

Definition API_BASE : string := "/api".

(** [FormData.get]: the first value appended under a key. *)
Definition formGet (key : string) (f : list (string * string)) : option string :=
  lookupOwn key f.

(** Lines 84-101. *)
Definition request (i : Inputs) (deploy : bool) : HttpCall :=
  {| url := API_BASE +:+ "/deploy-argocd-app";
     method := "POST";
     form :=
       [ ("repo_url", repoUrl i);
         ("device_id", deviceId i);
         ("device_name", deviceName i);
         ("destination_server", destinationServer i);
         ("destination_namespace", destinationNamespace i);
         ("cluster_fqdn", clusterFqdn i);
         ("use_argocd_api", if deploy then "true" else "false") ] |}.

Record Payload := mkPayload {
  error : option string;
  argocd_yaml : option string;
  status : option string;
  argocd_response : option string
}.

Inductive Update :=
| setLoading (b : bool)
| setError (message : string)
| setArgoYaml (yaml : option string)
| setDeploymentStatus (s : string)
| setArgoApiResponse (s : string)
| setStep (n : Z).

(** The setter calls made for a given outcome of the request; the status
    of the response is not inspected by this handler. *)
Definition handleGenerateYaml (deploy : bool) (r : FetchResult Payload)
  : list Update :=
  let failed message := [setError message] in
  ([setLoading true; setError EmptyString]
   ++ match r with
      | Rejected message => failed message
      | Response _ (NotJson message) => failed message
      | Response _ (Json data) =>
          if negb (falsy (error data))
          then failed (orElse (error data) EmptyString)
          else
            [ setArgoYaml (argocd_yaml data);
              setDeploymentStatus
                (orElse (status data) (if deploy then "deployed" else "yaml_only"));
              setArgoApiResponse (orElse (argocd_response data) EmptyString);
              setStep 3 ]
      end
   ++ [setLoading false])%list.

End Workflow.

(** ** The backend operation behind [/deploy-argocd-app] *)

Section Endpoint.

Context {W : Type}.
Variable transport : Request -> W -> Reply * W.
Variable cfg : BuilderConfig.

(** A field of the posted form; a field that was not sent reads as empty. *)
Definition formField (key : string) (f : list (string * string)) : string :=
  orElse (Workflow.formGet key f) EmptyString.

(** Modelled from the spec: the mode the caller asks for.  The backend is
    missing; the form field is the one the frontend sends, and only the
    value [true] asks for a deployment. *)
Definition modeOf (f : list (string * string)) : Mode :=
  match Workflow.formGet "use_argocd_api" f with
  | Some v => if String.eqb v "true" then Deploy else YamlOnly
  | None => YamlOnly
  end.

(** Modelled from the spec: the backend's handling of the request that
    [handleGenerateYaml] posts; it hands the posted fields to
    [upsertAndSync] in the mode asked for. *)
Definition deployArgocdApp (call : Workflow.HttpCall)
  : Net (W := W) (option (Error + Output)) :=
  let f := Workflow.form call in
  upsertAndSync transport cfg
    (Identity.mk (formField "device_name" f) (formField "device_id" f))
    (formField "repo_url" f)
    (formField "destination_server" f)
    (formField "destination_namespace" f)
    (modeOf f).

End Endpoint.

(** ** Dashboard presentation: search, health filter, sort and pages
    (DeviceDashboard.jsx, lines 28-32, 88-117 and 201-219) *)

(** [s.includes(q)] *)
Fixpoint includes (s q : string) : bool :=
  startsWith s q
  || match s with
     | EmptyString => false
     | String _ s' => includes s' q
     end.

(** The two columns whose header calls [onSort] (DeviceTable.jsx, lines
    21-22): the only values [sortBy.key] takes. *)
Inductive SortKey := byDeviceName | byDeviceId.

Inductive SortDir := asc | desc.

Record SortBy := mkSortBy {
  sortKey : SortKey;
  sortDir : SortDir
}.

(** [a[sortBy.key]] *)
Definition field (k : SortKey) (d : Device.t) : string :=
  match k with
  | byDeviceName => Device.deviceName d
  | byDeviceId => Device.deviceId d
  end.




(** [Array.prototype.sort] is stable, and for a comparator that orders the
    elements consistently its result is the one stable sorted arrangement;
    insertion before the first element that does not come earlier computes
    that arrangement. *)
Fixpoint insertBy {A} (cmp : A -> A -> Z) (x : A) (l : list A) : list A :=
  match l with
  | [] => [x]
  | y :: l' => if cmp x y <=? 0 then x :: l else y :: insertBy cmp x l'
  end.

Definition sortWith {A} (cmp : A -> A -> Z) (l : list A) : list A :=
  fold_right (insertBy cmp) [] l.

(** [l.slice(start, end)] on arrays. *)
Definition sliceList {A} (l : list A) (start end_ : Z) : list A :=
  let n := Z.of_nat (length l) in
  let from := clampIndex n start in
  let to := clampIndex n end_ in
  firstn (Z.to_nat (Z.max (to - from) 0)) (skipn (Z.to_nat from) l).

Definition pageSize : Z := 8.

(** [Math.ceil(n / pageSize)] for a length [n]: dividing by 8 is exact in
    floating point, so the result is the integer ceiling. *)
Definition ceilDiv (n m : Z) : Z := (n + m - 1) / m.

(** Line 110. *)
Definition totalPages {A} (filtered : list A) : Z :=
  Z.max 1 (ceilDiv (Z.of_nat (length filtered)) pageSize).

(** Line 111. *)
Definition pageData {A} (filtered : list A) (page : Z) : list A :=
  sliceList filtered ((page - 1) * pageSize) (page * pageSize).

(** Lines 116-117. *)
Definition onPrev (p : Z) : Z := Z.max 1 (p - 1).

Definition onNext (totalPages p : Z) : Z := Z.min totalPages (p + 1).

(** What the component shows below the filter controls (lines 201-219). *)
Inductive View :=
| LoadingView
| ErrorView (message : string)
| TableView (data : list Device.t) (current totalItems totalPages : Z).

Section Presentation.

(** [String.prototype.toLowerCase] is taken as given: nothing below depends
    on which characters it changes. *)
Variable toLowerCase : string -> string.

(** [A < B] on strings, which compares UTF-16 code units, is taken as given
    as well. *)
Variable lessThan : string -> string -> bool.

(** Lines 93-96; [d.namespace?.toLowerCase()] is absent for an absent
    namespace. *)
Definition matchesQuery (q : string) (d : Device.t) : bool :=
  includes (toLowerCase (Device.deviceName d)) q
  || includes (toLowerCase (Device.deviceId d)) q
  || match Device.namespace d with
     | Some n => includes (toLowerCase n) q
     | None => false
     end.

(** Line 99: [d.health === statusFilter]. *)
Definition hasHealth (statusFilter : string) (d : Device.t) : bool :=
  match Device.health d with
  | Some h => String.eqb h statusFilter
  | None => false
  end.

(** Lines 101-102: [(a[sortBy.key] || "").toString().toLowerCase()]. *)
Definition sortValue (sortBy : SortBy) (d : Device.t) : string :=
  toLowerCase (orElse (Some (field (sortKey sortBy) d)) EmptyString).

(** Lines 100-106: the comparator handed to [sort]. *)
Definition compareDevices (sortBy : SortBy) (a b : Device.t) : Z :=
  let A := sortValue sortBy a in
  let B := sortValue sortBy b in
  if lessThan A B then match sortDir sortBy with asc => -1 | desc => 1 end
  else if lessThan B A then match sortDir sortBy with asc => 1 | desc => -1 end
  else 0.

(** Lines 88-108: the memoised [filtered]. *)
Definition filtered (devices : list Device.t) (query statusFilter : string)
    (sortBy : SortBy) : list Device.t :=
  let data := devices in
  let data :=
    if negb (falsy (Some query))
    then let q := toLowerCase query in List.filter (matchesQuery q) data
    else data in
  let data :=
    if negb (String.eqb statusFilter "All")
    then List.filter (hasHealth statusFilter) data
    else data in
  sortWith (compareDevices sortBy) data.

Definition render (s : DashboardState) (query statusFilter : string)
    (sortBy : SortBy) (page : Z) : View :=
  let shown := filtered (devices s) query statusFilter sortBy in
  if loading s then LoadingView
  else if negb (falsy (Some (error s))) then ErrorView (error s)
  else TableView (pageData shown page) page
         (Z.of_nat (length shown)) (totalPages shown).

End Presentation.

(** The key of a table row (DeviceTable.jsx, line 33). *)
Definition rowKey (d : Device.t) : string :=
  Device.deviceName d +:+ "-" +:+ Device.deviceId d.

(** ** Row links: [buildDevSpacesLink] (DeviceRow.jsx) *)

(** [s.split(c)] for a one-character separator. *)
Fixpoint split (c : ascii) (s : string) : list string :=
  match s with
  | EmptyString => [EmptyString]
  | String a s' =>
      if Ascii.eqb a c then EmptyString :: split c s'
      else match split c s' with
           | h :: t => String a h :: t
           | [] => [String a EmptyString]
           end
  end.

(** [s.replace(/suffix$/, "")] for a literal suffix: the suffix is removed
    when the string ends with it. *)
Fixpoint removeSuffix (suffix s : string) : string :=
  if String.eqb s suffix then EmptyString
  else match s with
       | EmptyString => EmptyString
       | String c s' => String c (removeSuffix suffix s')
       end.

(** The two members of a [URL] object that are read. *)
Record ParsedURL := mkURL {
  hostname : string;
  pathname : string
}.

Section RowLinks.

(** [new URL(repoUrl)], which throws on a string that is not a URL; the
    parser itself belongs to the platform. *)
Variable parseURL : string -> option ParsedURL.

Definition buildDevSpacesLink (baseUrl repoUrl : string) : option string :=
  if falsy (Some baseUrl) || falsy (Some repoUrl) || String.eqb repoUrl "#"
  then None
  else
    match parseURL repoUrl with
    | None => None                                   (* catch *)
    | Some parsed =>
        if negb (includes (hostname parsed) "github.com") then None
        else
          let pathParts :=
            List.filter (fun p => negb (falsy (Some p)))
              (split "/" (removeSuffix ".git" (pathname parsed))) in
          match pathParts with
          | owner :: repo :: _ =>
              let rawDevfile :=
                "https://raw.githubusercontent.com/" +:+ owner +:+ "/" +:+ repo
                +:+ "/refs/heads/main/devfile.yaml" in
              Some (removeSuffix "/" baseUrl +:+ "/#/" +:+ rawDevfile)
          | _ => None                                (* pathParts.length < 2 *)
          end
    end.

End RowLinks.

(** ** Workflow step 1 and the wizard state
    (DeviceWorkflowApp.jsx, lines 14-34 and 46-77) *)
Module Wizard.

Record State := mkState {
  step : Z;
  repoUrl : option string;
  argoYaml : option string;
  deploymentStatus : string;
  argoApiResponse : string;
  loading : bool;
  error : string
}.

Inductive Update :=
| setStep (n : Z)
| setRepoUrl (v : option string)
| setArgoYaml (v : option string)
| setDeploymentStatus (v : string)
| setArgoApiResponse (v : string)
| setLoading (b : bool)
| setError (message : string).

Definition apply (s : State) (u : Update) : State :=
  match u with
  | setStep n =>
      mkState n (repoUrl s) (argoYaml s) (deploymentStatus s) (argoApiResponse s)
        (loading s) (error s)
  | setRepoUrl v =>
      mkState (step s) v (argoYaml s) (deploymentStatus s) (argoApiResponse s)
        (loading s) (error s)
  | setArgoYaml v =>
      mkState (step s) (repoUrl s) v (deploymentStatus s) (argoApiResponse s)
        (loading s) (error s)
  | setDeploymentStatus v =>
      mkState (step s) (repoUrl s) (argoYaml s) v (argoApiResponse s)
        (loading s) (error s)
  | setArgoApiResponse v =>
      mkState (step s) (repoUrl s) (argoYaml s) (deploymentStatus s) v
        (loading s) (error s)
  | setLoading b =>
      mkState (step s) (repoUrl s) (argoYaml s) (deploymentStatus s)
        (argoApiResponse s) b (error s)
  | setError m =>
      mkState (step s) (repoUrl s) (argoYaml s) (deploymentStatus s)
        (argoApiResponse s) (loading s) m
  end.

Definition run (us : list Update) (s : State) : State := fold_left apply us s.

(** The setters of [handleGenerateYaml] among those of the component. *)
Definition lift (u : Workflow.Update) : Update :=
  match u with
  | Workflow.setLoading b => setLoading b
  | Workflow.setError m => setError m
  | Workflow.setArgoYaml v => setArgoYaml v
  | Workflow.setDeploymentStatus v => setDeploymentStatus v
  | Workflow.setArgoApiResponse v => setArgoApiResponse v
  | Workflow.setStep n => setStep n
  end.

Definition handleGenerateYaml (deploy : bool) (r : FetchResult Workflow.Payload)
  : list Update :=
  map lift (Workflow.handleGenerateYaml deploy r).

Record RepoPayload := mkRepoPayload {
  repo_error : option string;              (* data.error *)
  repo_url : option string                 (* data.repo_url *)
}.

(** Lines 46-77: the setter calls of [handleCreateRepo] for a given outcome
    of its request; the status of the response is not inspected. *)
Definition handleCreateRepo (r : FetchResult RepoPayload) : list Update :=
  let failed message := [setError message] in
  ([setLoading true; setError EmptyString]
   ++ match r with
      | Rejected message => failed message
      | Response _ (NotJson message) => failed message
      | Response _ (Json data) =>
          if negb (falsy (repo_error data))
          then failed (orElse (repo_error data) EmptyString)
          else
            [ setRepoUrl (repo_url data);
              setDeploymentStatus EmptyString;
              setArgoApiResponse EmptyString;
              setArgoYaml (Some EmptyString);
              setStep 2 ]
      end
   ++ [setLoading false])%list.

(** A request whose outcome makes the handler take its [catch] branch, and
    the message it then shows. *)
Definition thrown {A} (err : A -> option string) (r : FetchResult A)
  : option string :=
  match r with
  | Rejected message => Some message
  | Response _ (NotJson message) => Some message
  | Response _ (Json data) =>
      if negb (falsy (err data)) then Some (orElse (err data) EmptyString)
      else None
  end.

End Wizard.

(** ** ArgoCD URL auto-fill of the earlier workflow form
    (src/unnamed/part_002, lines 406-412) *)

Definition gitopsHost : string := "openshift-gitops-server-openshift-gitops.apps".

(** The value of [argocdUrl] after the effect has run for a new
    [clusterFqdn]. *)
Definition autoFillArgocdUrl (clusterFqdn argocdUrl : string) : string :=
  if negb (falsy (Some clusterFqdn))
     && (String.eqb argocdUrl EmptyString || includes argocdUrl gitopsHost)
  then "https://" +:+ gitopsHost +:+ "." +:+ clusterFqdn
  else argocdUrl.

(** * Statements

    Definitions used to state the properties: sample data, the wording of
    the specification where it differs from the code, and the outcome of an
    upsert on the mock controller. *)

(** The lenient case as the specification words it: a name that lacks the
    prefix, or has no hyphen, decodes to the whole stripped string with an
    empty id. *)
Definition lenient_decode_as_specified : Prop :=
  forall s : string,
    startsWith s "device-" = false \/ contains dash s = false ->
    parseDeviceFields (Some s) = mkDeviceFields (trimmed s) EmptyString.

(** The round trip as the specification words it, with [labelChar] as the
    character set and the precondition read as strongly as it can be: the
    name has no hyphen at all, the id is a non-empty token without hyphen. *)
Definition round_trip_as_specified : Prop :=
  forall n i : string,
    contains dash n = false ->
    i <> EmptyString -> contains dash i = false ->
    decode (encode labelChar (Identity.mk n i)) = Identity.mk n i.

(** Updates other than [setDevices]; they leave the device list alone. *)
Definition keepsDevices (u : Update) : bool :=
  match u with
  | setDevices _ => false
  | _ => true
  end.

(** An item that has only a name and a health field. *)
Definition item (name health : option string) : App.t :=
  App.mk None name None None health None None None None.

(** The projection as the specification words it: a missing health or sync
    field becomes [Unknown] in the record. *)
Definition normalizes_to_Unknown_as_specified : Prop :=
  forall (clusterFqdn : string) (app : App.t),
    (App.health app = None ->
     Device.health (normalize clusterFqdn app) = Some "Unknown")
    /\ (App.sync app = None ->
        Device.syncStatus (normalize clusterFqdn app) = Some "Unknown").

(** A request that did not come back with a 2xx status. *)
Definition failedRequest {A} (r : FetchResult A) : bool :=
  match r with
  | Rejected _ => true
  | Response status _ => negb (ok status)
  end.

Definition failureMessage {A} (r : FetchResult A) : string :=
  match r with
  | Rejected message => message
  | Response status _ => "HTTP " +:+ pretty status
  end.

Section Acceptance.

Context {W : Type}.
Variable transport : Request -> W -> Reply * W.
Variable cfg : BuilderConfig.
Variables (identity : Identity.t)
          (repoUrl destinationServer destinationNamespace : string).

Local Abbreviation d :=
  (build cfg identity repoUrl destinationServer destinationNamespace).

(** The controller accepted the resource definition, starting from state
    [w]: the create succeeded, or it met a conflict and the replace
    succeeded.  [raw] is the body of the accepting reply, [w'] the state
    after it and [sent] the requests made. *)
Inductive Accepted (w : W) : string -> W -> list Request -> Prop :=
| accepted_created st body w1 :
    transport (PostApplications d) w = (Http st body, w1) ->
    is2xx st = true ->
    Accepted w body w1 [PostApplications d]
| accepted_updated b0 w1 st body w2 :
    transport (PostApplications d) w = (Http 409 b0, w1) ->
    transport (PutApplication (Descriptor.name d) d) w1 = (Http st body, w2) ->
    is2xx st = true ->
    Accepted w body w2
      [PostApplications d; PutApplication (Descriptor.name d) d].

End Acceptance.

(** The mock controller's resources after one upsert of [x]. *)
Definition applied (x : Descriptor.t) (w : list Descriptor.t) : list Descriptor.t :=
  if existsb (named (Descriptor.name x)) w
  then map (fun r => if named (Descriptor.name x) r then x else r) w
  else (w ++ [x])%list.

Definition other (n : string) (r : Descriptor.t) : bool := negb (named n r).

Definition sampleConfig : BuilderConfig := mkConfig labelChar "main" "device-apps".

Definition sampleIdentity : Identity.t := Identity.mk "pump station" "42".

Definition sampleRepo : string := "https://github.com/acme/device-pump-station-42".

(** A run reported success for descriptor [x]. *)
Definition reportsDeployed (x : Descriptor.t) (r : option (Error + Output)) : Prop :=
  exists raw sync, r = Some (inr (mkOutput deployed x raw sync)).

(** The conflict path as the specification words it: whenever the create
    of an accepted input is answered with 409, the run ends in [Deployed]
    after exactly one PUT and one sync call. *)
Definition conflict_path_as_specified : Prop :=
  forall (W : Type) (transport : Request -> W -> Reply * W)
         (cfg : BuilderConfig) (identity : Identity.t)
         (repoUrl destinationServer destinationNamespace : string)
         (w : W) (b0 : string) (w1 : W),
    let d := build cfg identity repoUrl destinationServer destinationNamespace in
    validate identity repoUrl = None ->
    transport (PostApplications d) w = (Http 409 b0, w1) ->
    exists raw sync w',
      upsert transport cfg identity repoUrl destinationServer
        destinationNamespace (w, [])
      = (Deployed d raw sync,
         (w', [PostApplications d;
               PutApplication (Descriptor.name d) d;
               PostSync (Descriptor.name d) true])).

(** [fetchDevices] suspends at its [await]s, and other calls may run in
    between.  The setter calls it makes before the first [await] (lines
    47-48): *)
Definition fetchStart : list Update :=
  [setLoading true; setError EmptyString].

(** The setter calls it makes when it resumes for the last time: the end of
    the [try] block or the [catch] block, then [finally].  They run in one
    go, without an [await] between them. *)
Definition fetchFinish (clusterFqdn : string) (r : FetchResult AppsPayload)
  : list Update :=
  (match fetchDevices_try clusterFqdn r with
   | Returned us => us
   | Thrown message => [setError message; setConnected false]
   end
   ++ [setLoading false])%list.

(** The items a successful response carries. *)
Definition returnedApps (r : FetchResult AppsPayload) : list App.t :=
  match r with
  | Response _ (Json data) => default [] (payload_apps data)
  | _ => []
  end.

(** The message of a body that makes [fetchDevices] throw although the
    status is 2xx: a body that is not JSON, or one with an [error] field. *)
Definition bodyFailure (body : Body AppsPayload) : option string :=
  match body with
  | NotJson message => Some message
  | Json data =>
      if falsy (payload_error data) then None
      else Some (orElse (payload_error data) EmptyString)
  end.

(** ASCII lower-casing, an instance of [toLowerCase] on ASCII text. *)
Fixpoint asciiLower (s : string) : string :=
  match s with
  | EmptyString => EmptyString
  | String c s' => String (lowercase c) (asciiLower s')
  end.

(** The two filters of [filtered] as one test. *)
Definition accepts (toLowerCase : string -> string) (query statusFilter : string)
    (d : Device.t) : bool :=
  (falsy (Some query) || matchesQuery toLowerCase (toLowerCase query) d)
  && (String.eqb statusFilter "All" || hasHealth statusFilter d).

(** Two rows are in the order asked for: the lower-cased sort value of the
    second is not less than that of the first (ascending), or not greater
    (descending). *)
Definition inOrder (toLowerCase : string -> string)
    (lessThan : string -> string -> bool) (sortBy : SortBy)
    (a b : Device.t) : Prop :=
  match sortDir sortBy with
  | asc => lessThan (sortValue toLowerCase sortBy b) (sortValue toLowerCase sortBy a) = false
  | desc => lessThan (sortValue toLowerCase sortBy a) (sortValue toLowerCase sortBy b) = false
  end.

(** A comparison never holds in both directions. *)
Definition asymmetric (lessThan : string -> string -> bool) : Prop :=
  forall a b : string, lessThan a b = true -> lessThan b a = false.

(** The page numbers [1 .. totalPages]. *)
Definition pageNumbers {A} (filtered : list A) : list Z :=
  map Z.of_nat (seq 1 (Z.to_nat (totalPages filtered))).

(** A record as [normalize] builds it for an item with the given name. *)
Definition deviceOf (name : string) : Device.t :=
  normalize EmptyString (item (Some name) None).

(** [s.endsWith(suffix)], used to state properties only. *)
Fixpoint endsWith (s suffix : string) : bool :=
  String.eqb s suffix
  || match s with
     | EmptyString => false
     | String _ s' => endsWith s' suffix
     end.

(** The link that opens the [devfile.yaml] of a GitHub repository in Dev
    Spaces. *)
Definition devfileLink (stem owner repo : string) : string :=
  stem +:+ "/#/https://raw.githubusercontent.com/" +:+ owner +:+ "/" +:+ repo
  +:+ "/refs/heads/main/devfile.yaml".

(** A parser that knows one repository URL. *)
Definition parseOnly (known : string) (u : ParsedURL) (s : string) : option ParsedURL :=
  if String.eqb s known then Some u else None.

(** * Properties *)

(** ** String primitives *)

Section StringFacts.

Lemma len_nonneg s : 0 <= len s.
Proof. unfold len. lia. Qed.

Lemma len_String c s : len (String c s) = len s + 1.
Proof. unfold len. cbn [String.length]. lia. Qed.

Lemma len_app a b : len (a +:+ b) = len a + len b.
Proof.
  induction a as [|c a IH]; [reflexivity|].
  change (String c a +:+ b) with (String c (a +:+ b)).
  rewrite !len_String, IH. lia.
Qed.

Lemma clampIndex_id n i : 0 <= i <= n -> clampIndex n i = i.
Proof.
  intros H. unfold clampIndex.
  destruct (Z.ltb_spec i 0); lia.
Qed.

Lemma startsWith_app p s : startsWith (p +:+ s) p = true.
Proof.
  induction p as [|c p IH]; [reflexivity|].
  change (String c p +:+ s) with (String c (p +:+ s)).
  cbn [startsWith]. rewrite Ascii.eqb_refl. exact IH.
Qed.

Lemma substring_all s : substring 0 (String.length s) s = s.
Proof.
  induction s as [|c s IH]; [reflexivity|].
  cbn [String.length substring]. now rewrite IH.
Qed.

Lemma substring_skip a m b :
  substring (String.length a) m (a +:+ b) = substring 0 m b.
Proof.
  induction a as [|c a IH]; [reflexivity|].
  change (String c a +:+ b) with (String c (a +:+ b)).
  cbn [String.length substring]. exact IH.
Qed.

Lemma substring_take a b : substring 0 (String.length a) (a +:+ b) = a.
Proof.
  induction a as [|c a IH].
  - now destruct b.
  - change (String c a +:+ b) with (String c (a +:+ b)).
    cbn [String.length substring]. now rewrite IH.
Qed.

(** The part after a prefix. *)
Lemma sliceFrom_app a b : sliceFrom (a +:+ b) (len a) = b.
Proof.
  unfold sliceFrom, slice.
  pose proof (len_nonneg a). pose proof (len_nonneg b).
  rewrite !clampIndex_id by (rewrite len_app; lia).
  rewrite len_app.
  replace (Z.max (len a + len b - len a) 0) with (len b) by lia.
  unfold len. rewrite !Nat2Z.id.
  rewrite substring_skip. apply substring_all.
Qed.

(** The part before a given position. *)
Lemma slice_app a b : slice (a +:+ b) 0 (len a) = a.
Proof.
  unfold slice.
  pose proof (len_nonneg a). pose proof (len_nonneg b).
  rewrite !clampIndex_id by (rewrite len_app; lia).
  replace (Z.max (len a - 0) 0) with (len a) by lia.
  unfold len. rewrite Nat2Z.id. apply substring_take.
Qed.

Lemma sliceFrom_after a c b : sliceFrom (a +:+ String c b) (len a + 1) = b.
Proof.
  replace (a +:+ String c b) with ((a +:+ String c EmptyString) +:+ b).
  - replace (len a + 1) with (len (a +:+ String c EmptyString)).
    + apply sliceFrom_app.
    + rewrite len_app, len_String. reflexivity.
  - induction a as [|x a IH]; [reflexivity|].
    change ((String x a +:+ String c EmptyString) +:+ b)
      with (String x ((a +:+ String c EmptyString) +:+ b)).
    now rewrite IH.
Qed.

Lemma startsWith_dash s :
  startsWith s "-" = match s with
                     | EmptyString => false
                     | String d _ => Ascii.eqb d dash
                     end.
Proof. destruct s as [|d s]; cbn; [reflexivity | apply andb_true_r]. Qed.

(** A string without the needle leaves the scan where it started. *)
Lemma scan_absent s i found :
  contains dash s = false -> lastIndexOf_scan s "-" i found = found.
Proof.
  revert i found. induction s as [|d s IH]; intros i found H.
  - reflexivity.
  - cbn [contains] in H. apply orb_false_iff in H as [Hd Hs].
    cbn [lastIndexOf_scan]. rewrite startsWith_dash, Hd. now apply IH.
Qed.

(** The scan stops at the last occurrence. *)
Lemma scan_last a b i found :
  contains dash b = false ->
  lastIndexOf_scan (a +:+ String dash b) "-" i found = i + len a.
Proof.
  intros Hb. revert i found. induction a as [|x a IH]; intros i found.
  - change (EmptyString +:+ String dash b) with (String dash b).
    cbn [lastIndexOf_scan]. rewrite startsWith_dash, Ascii.eqb_refl.
    rewrite scan_absent by exact Hb. unfold len. cbn [String.length]. lia.
  - change (String x a +:+ String dash b) with (String x (a +:+ String dash b)).
    cbn [lastIndexOf_scan]. rewrite IH, len_String. lia.
Qed.

Lemma lastIndexOf_absent s :
  contains dash s = false -> lastIndexOf s "-" = -1.
Proof. apply scan_absent. Qed.

Lemma lastIndexOf_last a b :
  contains dash b = false -> lastIndexOf (a +:+ String dash b) "-" = len a.
Proof. intros H. unfold lastIndexOf. now rewrite scan_last. Qed.

(** A string with a hyphen splits at its last hyphen. *)
Lemma split_last_dash s :
  contains dash s = true ->
  exists a b, s = a +:+ String dash b /\ contains dash b = false.
Proof.
  induction s as [|d s IH]; intros H; [discriminate|].
  destruct (contains dash s) eqn:Hs.
  - destruct (IH eq_refl) as (a & b & -> & Hb).
    exists (String d a), b. split; [reflexivity | exact Hb].
  - cbn [contains] in H. rewrite Hs, orb_false_r in H.
    apply Ascii.eqb_eq in H as ->.
    exists EmptyString, s. split; [reflexivity | exact Hs].
Qed.

Lemma replaceAll_clean s : contains dash (replaceAll dash space s) = false.
Proof.
  induction s as [|d s IH]; [reflexivity|].
  cbn [replaceAll contains]. rewrite IH, orb_false_r.
  destruct (Ascii.eqb d dash) eqn:E; [reflexivity | exact E].
Qed.

End StringFacts.

(** ** Decoding *)

Lemma falsy_Some s : falsy (Some s) = true <-> s = EmptyString.
Proof.
  destruct s as [|c s]; cbn; [tauto|].
  split; [|discriminate]. unfold len. cbn [String.length]. intros H.
  apply Z.eqb_eq in H. lia.
Qed.

(** The shape of the result, by the position of the last hyphen of the
    stripped name. *)
Lemma parse_no_dash s :
  contains dash (trimmed s) = false ->
  parseDeviceFields (Some s) = mkDeviceFields (trimmed s) EmptyString.
Proof.
  intros H. unfold parseDeviceFields.
  destruct (falsy (Some s)) eqn:F.
  - apply falsy_Some in F. subst s. reflexivity.
  - now rewrite (lastIndexOf_absent _ H).
Qed.

Lemma parse_split s a b :
  s <> EmptyString ->
  trimmed s = a +:+ String dash b ->
  contains dash b = false ->
  parseDeviceFields (Some s) = mkDeviceFields (replaceAll dash space a) b.
Proof.
  intros Hs Ht Hb. unfold parseDeviceFields.
  destruct (falsy (Some s)) eqn:F.
  - apply falsy_Some in F. contradiction.
  - rewrite Ht, (lastIndexOf_last _ _ Hb).
    pose proof (len_nonneg a).
    destruct (Z.eqb_spec (len a) (-1)); [lia|].
    now rewrite slice_app, sliceFrom_after.
Qed.

Lemma trimmed_prefixed x : trimmed ("device-" +:+ x) = x.
Proof.
  unfold trimmed. rewrite startsWith_app. apply sliceFrom_app.
Qed.

Example parse_wellformed :
  parseDeviceFields (Some "device-pump-station-42")
  = mkDeviceFields "pump station" "42".
Proof. reflexivity. Qed.

Example parse_absent :
  parseDeviceFields None = mkDeviceFields EmptyString EmptyString.
Proof. reflexivity. Qed.

Example parse_prefix_only :
  parseDeviceFields (Some "device-") = mkDeviceFields EmptyString EmptyString.
Proof. reflexivity. Qed.

(** C1, counterexample: ["my-app"] lacks the [device-] prefix, yet it is
    split at its hyphen into the name ["my"] and the id ["app"]. *)
Lemma lenient_decode_fails_without_prefix : ~ lenient_decode_as_specified.
Proof.
  intros H. specialize (H "my-app" (or_introl eq_refl)).
  discriminate H.
Qed.

(** C1, amended: when what remains of the name after an initial [device-]
    has been removed contains no hyphen, [parseDeviceFields] returns that
    whole remainder as the device name and the empty string as the id. *)
Theorem lenient_decode_without_separator (s : string) :
  contains dash (trimmed s) = false ->
  parseDeviceFields (Some s) = mkDeviceFields (trimmed s) EmptyString.
Proof. apply parse_no_dash. Qed.

Lemma lenient_decode_without_separator_witness :
  contains dash (trimmed "device-guestbook") = false
  /\ parseDeviceFields (Some "device-guestbook")
     = mkDeviceFields "guestbook" EmptyString.
Proof.
  split; [reflexivity|].
  apply (lenient_decode_without_separator "device-guestbook"). reflexivity.
Defined.

Lemma replaceAll_length c e s :
  String.length (replaceAll c e s) = String.length s.
Proof. induction s as [|x s IH]; cbn [replaceAll String.length]; congruence. Qed.

Lemma replaceAll_get c e s k :
  String.get k (replaceAll c e s)
  = option_map (fun x => if Ascii.eqb x c then e else x) (String.get k s).
Proof.
  revert k. induction s as [|x s IH]; intros k; [reflexivity|].
  cbn [replaceAll]. destruct k as [|k]; [reflexivity|]. cbn [String.get]. apply IH.
Qed.

Lemma startsWith_contains c s p :
  startsWith s p = true -> contains c p = true -> contains c s = true.
Proof.
  revert s. induction p as [|x p IH]; intros s H Hc; [discriminate Hc|].
  destruct s as [|y s]; [discriminate H|].
  cbn [startsWith] in H. apply andb_true_iff in H as [Hxy Hs].
  apply Ascii.eqb_eq in Hxy. subst y.
  cbn [contains] in *. apply orb_true_iff in Hc as [Hc | Hc].
  - now rewrite Hc.
  - rewrite (IH s Hs Hc). apply orb_true_r.
Qed.

Lemma trimmed_plain s : contains dash s = false -> trimmed s = s.
Proof.
  intros H. unfold trimmed.
  destruct (startsWith s "device-") eqn:E; [| reflexivity].
  rewrite (startsWith_contains dash s "device-" E eq_refl) in H. discriminate H.
Qed.

(** C10: for every string, also the empty one, [parseDeviceFields] returns
    fields, and the device name among them contains no hyphen.  A string
    without hyphen is returned whole as the device name.  When the
    stripped name splits at its last hyphen into a name segment and an id,
    the id is returned as it is and the device name is the name segment
    character by character, with a space where the segment has a hyphen
    and the character of the segment everywhere else; so two names that
    differ only in hyphens versus spaces decode to the same fields. *)
Theorem decoded_name_has_no_hyphen :
  parseDeviceFields (Some EmptyString) = mkDeviceFields EmptyString EmptyString
  /\ (forall s : string,
        contains dash (deviceName (parseDeviceFields (Some s))) = false)
  /\ (forall s : string,
        contains dash s = false ->
        parseDeviceFields (Some s) = mkDeviceFields s EmptyString)
  /\ (forall s a b : string,
        s <> EmptyString ->
        trimmed s = a +:+ String dash b -> contains dash b = false ->
        deviceId (parseDeviceFields (Some s)) = b
        /\ String.length (deviceName (parseDeviceFields (Some s))) = String.length a
        /\ forall k : nat,
             String.get k (deviceName (parseDeviceFields (Some s)))
             = option_map (fun x => if Ascii.eqb x dash then space else x)
                 (String.get k a))
  /\ (forall n i : string,
        contains dash i = false ->
        deviceId (parseDeviceFields (Some ("device-" +:+ n +:+ "-" +:+ i))) = i
        /\ String.length
             (deviceName (parseDeviceFields (Some ("device-" +:+ n +:+ "-" +:+ i))))
           = String.length n
        /\ forall k : nat,
             String.get k
               (deviceName (parseDeviceFields (Some ("device-" +:+ n +:+ "-" +:+ i))))
             = option_map (fun x => if Ascii.eqb x dash then space else x)
                 (String.get k n))
  /\ (forall n1 n2 i : string,
        replaceAll dash space n1 = replaceAll dash space n2 ->
        contains dash i = false ->
        parseDeviceFields (Some ("device-" +:+ n1 +:+ "-" +:+ i))
        = parseDeviceFields (Some ("device-" +:+ n2 +:+ "-" +:+ i))).
Proof.
  split; [reflexivity|]. split; [| split; [| split; [| split]]].
  - intros s. destruct (contains dash (trimmed s)) eqn:E.
    + destruct (split_last_dash _ E) as (a & b & Ht & Hb).
      assert (s <> EmptyString) as Hs by (intros ->; discriminate E).
      rewrite (parse_split s a b Hs Ht Hb). apply replaceAll_clean.
    + rewrite (parse_no_dash s E). exact E.
  - intros s H. rewrite parse_no_dash; rewrite (trimmed_plain s H); [reflexivity | exact H].
  - intros s a b Hs Ht Hb. rewrite (parse_split s a b Hs Ht Hb).
    cbn [deviceName deviceId].
    split; [reflexivity|]. split; [apply replaceAll_length|].
    intros k. apply replaceAll_get.
  - intros n i Hi.
    rewrite (parse_split ("device-" +:+ n +:+ "-" +:+ i) n i);
      [| discriminate | apply trimmed_prefixed | exact Hi].
    cbn [deviceName deviceId].
    split; [reflexivity|]. split; [apply replaceAll_length|].
    intros k. apply replaceAll_get.
  - intros n1 n2 i Hn Hi.
    rewrite (parse_split ("device-" +:+ n1 +:+ "-" +:+ i) n1 i),
            (parse_split ("device-" +:+ n2 +:+ "-" +:+ i) n2 i);
      try discriminate; try apply trimmed_prefixed; try exact Hi.
    now rewrite Hn.
Qed.

Lemma decoded_name_has_no_hyphen_witness :
  contains dash (deviceName (parseDeviceFields (Some "device-a-b-c-7"))) = false
  /\ deviceId (parseDeviceFields (Some "device-a-b-c-7")) = "7"
  /\ String.get 1 (deviceName (parseDeviceFields (Some "device-a-b-c-7")))
     = Some space
  /\ parseDeviceFields (Some "device-pump-a-7")
     = parseDeviceFields (Some "device-pump a-7").
Proof.
  destruct decoded_name_has_no_hyphen as (_ & H1 & _ & _ & H3 & H4).
  split; [apply (H1 "device-a-b-c-7")|].
  destruct (H3 "a-b-c" "7" eq_refl) as (Hid & _ & Hget).
  split; [exact Hid|]. split; [exact (Hget 1%nat)|].
  apply (H4 "pump-a" "pump a" "7"); reflexivity.
Defined.

(** ** Inventory reconciliation *)

Lemma states_keep_devices us s :
  forallb keepsDevices us = true ->
  Forall (fun st => devices st = devices s) (states us s).
Proof.
  revert s. induction us as [|u us IH]; intros s H; cbn [states].
  - constructor; [reflexivity | constructor].
  - cbn [forallb] in H. apply andb_true_iff in H as [Hu Hus].
    constructor; [reflexivity|].
    specialize (IH (apply s u) Hus).
    assert (devices (apply s u) = devices s) as E by (destruct u; [reflexivity.. | discriminate | reflexivity]).
    rewrite <- E. exact IH.
Qed.

(** C2: on a successful response [fetchDevices] calls [setDevices] once,
    with the image of the returned items under [normalize]: the stored list
    has one record per item, in the order of the response, nothing dropped
    or rearranged. *)
Theorem projection_complete_and_ordered
    (clusterFqdn : string) (status : Z) (data : AppsPayload) (s : DashboardState) :
  ok status = true ->
  falsy (payload_error data) = true ->
  let apps := default [] (payload_apps data) in
  let s' := run (fetchDevices clusterFqdn (Response status (Json data))) s in
  fetchDevices clusterFqdn (Response status (Json data))
  = [ setLoading true; setError EmptyString;
      setDevices (map (normalize clusterFqdn) apps); setConnected true;
      setLoading false ]
  /\ devices s' = map (normalize clusterFqdn) apps
  /\ length (devices s') = length apps
  /\ (forall i : nat, devices s' !! i = normalize clusterFqdn <$> apps !! i)
  /\ error s' = EmptyString.
Proof.
  intros Hok Herr apps s'.
  assert (fetchDevices clusterFqdn (Response status (Json data))
          = [ setLoading true; setError EmptyString;
              setDevices (map (normalize clusterFqdn) apps); setConnected true;
              setLoading false ]) as U.
  { unfold fetchDevices, fetchDevices_try. rewrite Hok, Herr. reflexivity. }
  split; [exact U|].
  assert (devices s' = map (normalize clusterFqdn) apps) as E.
  { subst s'. rewrite U. reflexivity. }
  split; [exact E|]. rewrite E. split; [apply length_map|].
  split; [intros i; apply list_lookup_fmap|].
  subst s'. rewrite U. reflexivity.
Qed.

Lemma projection_complete_and_ordered_witness :
  let data :=
    mkPayload None
      (Some [ item (Some "device-pump-7") None;
              item (Some "guestbook") (Some "Healthy");
              item (Some "device-valve-a-12") (Some "Degraded") ]) in
  let s' :=
    run (fetchDevices EmptyString (Response 200 (Json data)))
        (mkDashboard [] false EmptyString false) in
  map (fun d => (Device.deviceName d, Device.deviceId d, Device.health d)) (devices s')
  = [ ("pump", "7", None);
      ("guestbook", EmptyString, Some "Healthy");
      ("valve a", "12", Some "Degraded") ].
Proof.
  intros data s'.
  destruct (projection_complete_and_ordered EmptyString 200 data
              (mkDashboard [] false EmptyString false) eq_refl eq_refl)
    as (_ & E & _).
  fold s' in E. rewrite E. reflexivity.
Defined.

(** C3, counterexample: an item without a health field yields a record
    whose health is absent as well. *)
Lemma missing_health_stays_missing : ~ normalizes_to_Unknown_as_specified.
Proof.
  intros H.
  destruct (H EmptyString (item (Some "device-pump-7") None)) as [Hh _].
  specialize (Hh eq_refl). discriminate Hh.
Qed.

(** C3, amended: the record carries the item's health and sync status
    unchanged, so a missing field stays missing; it is the badge that
    shows a missing health in the style of [Unknown], with no text. *)
Theorem health_and_sync_pass_through (clusterFqdn : string) (app : App.t) :
  Device.health (normalize clusterFqdn app) = App.health app
  /\ Device.syncStatus (normalize clusterFqdn app) = App.sync app
  /\ (App.health app = None ->
      StatusBadge (Device.health (normalize clusterFqdn app))
      = mkBadge (Style unknownStyle) None).
Proof.
  split; [reflexivity|]. split; [reflexivity|].
  intros H. cbn [normalize Device.health]. rewrite H. reflexivity.
Qed.

Lemma health_and_sync_pass_through_witness :
  let app := item (Some "device-pump-7") None in
  App.health app = None
  /\ StatusBadge (Device.health (normalize EmptyString app))
     = mkBadge (Style "bg-gray-100 text-gray-800") None.
Proof.
  intros app. split; [reflexivity|].
  apply (health_and_sync_pass_through EmptyString app). reflexivity.
Defined.

Example badge_known : StatusBadge (Some "Degraded")
  = mkBadge (Style "bg-yellow-100 text-yellow-800") (Some "Degraded").
Proof. reflexivity. Qed.

Example badge_unrecognised : StatusBadge (Some "Progressing")
  = mkBadge (Style unknownStyle) (Some "Progressing").
Proof. reflexivity. Qed.

(** C4: when the transport fails or the status is not 2xx, the [try] block
    throws exactly once, the message ends up in [error], and [devices]
    keeps its previous value in every state the component goes through. *)
Theorem failed_fetch_is_atomic
    (clusterFqdn : string) (r : FetchResult AppsPayload) (s : DashboardState) :
  failedRequest r = true ->
  let s' := run (fetchDevices clusterFqdn r) s in
  fetchDevices_try clusterFqdn r = Thrown (failureMessage r)
  /\ Forall (fun st => devices st = devices s)
            (states (fetchDevices clusterFqdn r) s)
  /\ s' = mkDashboard (devices s) false (failureMessage r) false.
Proof.
  intros H s'.
  assert (fetchDevices_try clusterFqdn r = Thrown (failureMessage r)) as T.
  { destruct r as [m | st b]; [reflexivity|].
    cbn [failedRequest] in H. cbn [fetchDevices_try]. now rewrite H. }
  split; [exact T|].
  subst s'. unfold fetchDevices. rewrite T.
  split; [apply states_keep_devices|]; reflexivity.
Qed.

Lemma failed_fetch_is_atomic_witness :
  let held := [normalize EmptyString (item (Some "device-pump-7") (Some "Healthy"))] in
  let s := mkDashboard held false EmptyString true in
  let r := Response 503 (Json (mkPayload None (Some [item (Some "device-x-1") None]))) in
  run (fetchDevices EmptyString r) s = mkDashboard held false "HTTP 503" false.
Proof.
  intros held s r.
  destruct (failed_fetch_is_atomic EmptyString r s eq_refl) as (_ & _ & E).
  exact E.
Defined.

(** ** Encoding followed by decoding *)

Section RoundTrip.

Variable valid : ascii -> bool.

Lemma decode_slug n :
  allChars (survives valid) n = true ->
  replaceAll dash space (slug valid n) = n.
Proof.
  induction n as [|c n IH]; intros H; [reflexivity|].
  cbn [allChars] in H. apply andb_true_iff in H as [Hc Hn].
  cbn [slug replaceAll]. rewrite (IH Hn). f_equal.
  unfold survives in Hc. apply orb_true_iff in Hc as [Hsp | Hkeep].
  - apply Ascii.eqb_eq in Hsp. subst c. reflexivity.
  - apply andb_true_iff in Hkeep as [Hfix Hnd].
    apply Ascii.eqb_eq in Hfix. rewrite Hfix.
    apply negb_true_iff in Hnd. now rewrite Hnd.
Qed.

Lemma decode_encode_fields n i :
  contains dash i = false ->
  parseDeviceFields (Some (encode valid (Identity.mk n i)))
  = mkDeviceFields (replaceAll dash space (slug valid n)) i.
Proof.
  intros Hi. apply parse_split; [discriminate | | exact Hi].
  unfold encode. cbn [Identity.name Identity.id].
  apply trimmed_prefixed.
Qed.

End RoundTrip.

(** C5, counterexample: the name ["Pump"] comes back as ["pump"], since the
    encoder lowercases and the decoder only maps hyphens to spaces. *)
Lemma round_trip_loses_case : ~ round_trip_as_specified.
Proof.
  intros H. specialize (H "Pump" "7" eq_refl).
  assert ("7" <> EmptyString) as Hne by discriminate.
  specialize (H Hne eq_refl). discriminate H.
Qed.

(** C5, amended: when the id contains no hyphen and the name is made of
    spaces and of characters other than the hyphen that [slug] leaves alone,
    decoding the encoded name gives back the name and the id. *)
Theorem decode_encode_round_trip (valid : ascii -> bool) (n i : string) :
  allChars (survives valid) n = true ->
  contains dash i = false ->
  decode (encode valid (Identity.mk n i)) = Identity.mk n i.
Proof.
  intros Hn Hi. unfold decode.
  rewrite (decode_encode_fields valid n i Hi). cbn [deviceName deviceId].
  now rewrite (decode_slug valid n Hn).
Qed.

Lemma decode_encode_round_trip_witness :
  encode labelChar (Identity.mk "pump station" "42") = "device-pump-station-42"
  /\ decode "device-pump-station-42" = Identity.mk "pump station" "42".
Proof.
  split; [reflexivity|].
  apply (decode_encode_round_trip labelChar "pump station" "42"); reflexivity.
Defined.

Example round_trip_hyphen_in_name :
  decode (encode labelChar (Identity.mk "valve-a" "12")) = Identity.mk "valve a" "12".
Proof. reflexivity. Qed.

Example round_trip_hyphen_in_id :
  decode (encode labelChar (Identity.mk "valve" "a-12")) = Identity.mk "valve a" "12".
Proof. reflexivity. Qed.

(** ** Upsert orchestrator *)

Section OrchestratorFacts.

Context {W : Type}.
Variable transport : Request -> W -> Reply * W.
Variable cfg : BuilderConfig.
Variables (identity : Identity.t)
          (repoUrl destinationServer destinationNamespace : string).

Local Abbreviation d :=
  (build cfg identity repoUrl destinationServer destinationNamespace).
Local Abbreviation step' :=
  (step transport cfg identity repoUrl destinationServer destinationNamespace).
Local Abbreviation steps' :=
  (steps transport cfg identity repoUrl destinationServer destinationNamespace).
Local Abbreviation upsert' :=
  (upsert transport cfg identity repoUrl destinationServer destinationNamespace).
Local Abbreviation upsertAndSync' :=
  (upsertAndSync transport cfg identity repoUrl destinationServer destinationNamespace).

Lemma steps_S n p s :
  steps' (S n) p s = steps' n (fst (step' p s)) (snd (step' p s)).
Proof. cbn [steps]. unfold bind. now destruct (step' p s). Qed.

Lemma steps_terminal n p s : terminal p = true -> steps' n p s = (p, s).
Proof.
  revert s. induction n as [|n IH]; intros s H; [reflexivity|].
  rewrite steps_S. destruct p; try discriminate; cbn [step ret fst snd]; now apply IH.
Qed.

Lemma step_creating x w log r w1 :
  transport (PostApplications x) w = (r, w1) ->
  step' (Creating x) (w, log)
  = (afterCreate x r, (w1, (log ++ [PostApplications x])%list)).
Proof. intros H. cbn [step]. unfold bind, send, ret. now rewrite H. Qed.

Lemma step_updating x w log r w1 :
  transport (PutApplication (Descriptor.name x) x) w = (r, w1) ->
  step' (Updating x) (w, log)
  = (afterUpdate x r, (w1, (log ++ [PutApplication (Descriptor.name x) x])%list)).
Proof. intros H. cbn [step]. unfold bind, send, ret. now rewrite H. Qed.

Lemma step_syncing x raw w log r w1 :
  transport (PostSync (Descriptor.name x) true) w = (r, w1) ->
  step' (Syncing x raw) (w, log)
  = (Deployed x raw (failureOf r),
     (w1, (log ++ [PostSync (Descriptor.name x) true])%list)).
Proof. intros H. cbn [step]. unfold bind, send, ret. now rewrite H. Qed.

(** Input that is refused never reaches the controller. *)
Lemma upsert_invalid e s :
  validate identity repoUrl = Some e -> upsert' s = (Failed e, s).
Proof.
  intros V. unfold upsert. rewrite steps_S. cbn [step ret fst snd].
  rewrite V. now apply steps_terminal.
Qed.

Lemma upsert_from_creating s :
  validate identity repoUrl = None -> upsert' s = steps' 4 (Creating d) s.
Proof.
  intros V. unfold upsert. rewrite steps_S. cbn [step ret fst snd].
  now rewrite V.
Qed.

Lemma failureOf_Some r e :
  failureOf r = Some e ->
  match r with
  | NoReply m => e = TransportError m
  | Http st body => is2xx st = false /\ e = ControllerRejected st body
  end.
Proof.
  destruct r as [m | st body]; cbn.
  - now intros [= <-].
  - destruct (is2xx st); [discriminate | now intros [= <-]].
Qed.

(** The create succeeded. *)
Lemma upsert_created w log st body w1 r3 w3 :
  validate identity repoUrl = None ->
  transport (PostApplications d) w = (Http st body, w1) ->
  is2xx st = true ->
  transport (PostSync (Descriptor.name d) true) w1 = (r3, w3) ->
  upsert' (w, log)
  = (Deployed d body (failureOf r3),
     (w3, (log ++ [PostApplications d; PostSync (Descriptor.name d) true])%list)).
Proof.
  intros V H1 H2 H3. rewrite (upsert_from_creating _ V).
  rewrite steps_S, (step_creating _ _ _ _ _ H1). cbn [afterCreate fst snd].
  rewrite H2, steps_S. cbn [step ret fst snd].
  rewrite steps_S, (step_syncing _ _ _ _ _ _ H3). cbn [fst snd].
  rewrite steps_terminal by reflexivity.
  now rewrite <- app_assoc.
Qed.

(** The create met a conflict and the replace succeeded. *)
Lemma upsert_updated w log b0 w1 st body w2 r3 w3 :
  validate identity repoUrl = None ->
  transport (PostApplications d) w = (Http 409 b0, w1) ->
  transport (PutApplication (Descriptor.name d) d) w1 = (Http st body, w2) ->
  is2xx st = true ->
  transport (PostSync (Descriptor.name d) true) w2 = (r3, w3) ->
  upsert' (w, log)
  = (Deployed d body (failureOf r3),
     (w3, (log ++ [PostApplications d;
                   PutApplication (Descriptor.name d) d;
                   PostSync (Descriptor.name d) true])%list)).
Proof.
  intros V H1 H2 H3 H4. rewrite (upsert_from_creating _ V).
  rewrite steps_S, (step_creating _ _ _ _ _ H1). cbn [afterCreate fst snd].
  change (is2xx 409) with false. change (409 =? 409) with true. cbv iota.
  rewrite steps_S. cbn [step ret fst snd].
  rewrite steps_S, (step_updating _ _ _ _ _ H2). cbn [afterUpdate fst snd].
  rewrite H3, steps_S, (step_syncing _ _ _ _ _ _ H4). cbn [fst snd].
  rewrite steps_terminal by reflexivity.
  now rewrite <- !app_assoc.
Qed.

(** The create met a conflict and the replace was refused. *)
Lemma upsert_update_refused w log b0 w1 r2 w2 e :
  validate identity repoUrl = None ->
  transport (PostApplications d) w = (Http 409 b0, w1) ->
  transport (PutApplication (Descriptor.name d) d) w1 = (r2, w2) ->
  failureOf r2 = Some e ->
  upsert' (w, log)
  = (Failed e,
     (w2, (log ++ [PostApplications d;
                   PutApplication (Descriptor.name d) d])%list)).
Proof.
  intros V H1 H2 H3. rewrite (upsert_from_creating _ V).
  rewrite steps_S, (step_creating _ _ _ _ _ H1). cbn [afterCreate fst snd].
  change (is2xx 409) with false. change (409 =? 409) with true. cbv iota.
  rewrite steps_S. cbn [step ret fst snd].
  rewrite steps_S, (step_updating _ _ _ _ _ H2). cbn [fst snd].
  apply failureOf_Some in H3.
  destruct r2 as [m | st body]; cbn [afterUpdate].
  - subst e. rewrite steps_terminal by reflexivity. now rewrite <- app_assoc.
  - destruct H3 as [H3 ->]. rewrite H3.
    rewrite steps_terminal by reflexivity. now rewrite <- app_assoc.
Qed.

(** A transition only adds to the log of requests. *)
Lemma step_appends p w log :
  exists w' sent, snd (step' p (w, log)) = (w', (log ++ sent)%list).
Proof.
  destruct p as [ | x | x raw | x | x | x raw | x raw sy | e]; cbn [step];
    unfold bind, send, ret;
    try (exists w, []; cbn [snd]; now rewrite List.app_nil_r).
  - destruct (transport (PostApplications x) w) as [r w']. now eauto.
  - destruct (transport (PutApplication (Descriptor.name x) x) w) as [r w']. now eauto.
  - destruct (transport (PostSync (Descriptor.name x) true) w) as [r w']. now eauto.
Qed.

Lemma steps_append n p w log :
  exists w' sent, snd (steps' n p (w, log)) = (w', (log ++ sent)%list).
Proof.
  revert p w log. induction n as [|n IH]; intros p w log.
  - exists w, []. cbn. now rewrite List.app_nil_r.
  - rewrite steps_S.
    destruct (step_appends p w log) as (w1 & sent1 & E1). rewrite E1.
    destruct (IH (fst (step' p (w, log))) w1 (log ++ sent1)%list) as (w2 & sent2 & E2).
    exists w2, (sent1 ++ sent2)%list. now rewrite E2, app_assoc.
Qed.

(** A deployment of accepted input starts with the create request. *)
Lemma upsert_sends_create w log :
  validate identity repoUrl = None ->
  exists w' sent,
    snd (upsert' (w, log)) = (w', (log ++ PostApplications d :: sent)%list).
Proof.
  intros V. rewrite (upsert_from_creating _ V).
  destruct (transport (PostApplications d) w) as [r1 w1] eqn:H1.
  rewrite steps_S, (step_creating _ _ _ _ _ H1). cbn [fst snd].
  destruct (steps_append 3 (afterCreate d r1) w1 (log ++ [PostApplications d])%list)
    as (w2 & sent & E).
  exists w2, sent. rewrite E. now rewrite <- app_assoc.
Qed.

(** Five transitions are enough: the run always ends in [Deployed] or
    [Failed]. *)
Lemma upsert_terminates s : terminal (fst (upsert' s)) = true.
Proof.
  destruct (validate identity repoUrl) as [e|] eqn:V;
    [now rewrite (upsert_invalid e s V)|].
  destruct s as [w log]. rewrite (upsert_from_creating _ V).
  destruct (transport (PostApplications d) w) as [r1 w1] eqn:H1.
  rewrite steps_S, (step_creating _ _ _ _ _ H1). cbn [fst snd].
  destruct r1 as [m | st body]; cbn [afterCreate].
  { now rewrite steps_terminal. }
  destruct (is2xx st) eqn:E.
  { rewrite steps_S. cbn [step ret fst snd].
    destruct (transport (PostSync (Descriptor.name d) true) w1) as [r3 w3] eqn:H3.
    rewrite steps_S, (step_syncing _ _ _ _ _ _ H3). cbn [fst snd].
    now rewrite steps_terminal. }
  destruct (st =? 409); [| now rewrite steps_terminal].
  rewrite steps_S. cbn [step ret fst snd].
  destruct (transport (PutApplication (Descriptor.name d) d) w1) as [r2 w2] eqn:H2.
  rewrite steps_S, (step_updating _ _ _ _ _ H2). cbn [fst snd].
  destruct r2 as [m | st2 body2]; cbn [afterUpdate].
  { now rewrite steps_terminal. }
  destruct (is2xx st2); [| now rewrite steps_terminal].
  destruct (transport (PostSync (Descriptor.name d) true) w2) as [r3 w3] eqn:H3.
  rewrite steps_S, (step_syncing _ _ _ _ _ _ H3). cbn [fst snd].
  now rewrite steps_terminal.
Qed.

(** The operation always comes back with a result. *)
Lemma upsertAndSync_returns mode s :
  exists r, fst (upsertAndSync' mode s) = Some r.
Proof.
  destruct mode; [| eexists; reflexivity].
  unfold upsertAndSync, bind, ret.
  pose proof (upsert_terminates s) as T.
  destruct (upsert' s) as [p s']. cbn [fst] in *.
  destruct p; try discriminate T; eexists; reflexivity.
Qed.

(** Refused input is answered with the validation error in either mode,
    without a request and without a change of the controller's state. *)
Lemma invalid_input_is_refused mode e s :
  validate identity repoUrl = Some e ->
  upsertAndSync' mode s = (Some (inl e), s).
Proof.
  intros V. destruct mode; unfold upsertAndSync, bind, ret.
  - now rewrite (upsert_invalid e s V).
  - now rewrite V.
Qed.

End OrchestratorFacts.

Example validate_empty_repo :
  validate sampleIdentity EmptyString = Some (ValidationError "repository URL is empty").
Proof. reflexivity. Qed.

Example validate_empty_id :
  validate (Identity.mk "pump station" EmptyString) sampleRepo
  = Some (ValidationError "identity is malformed").
Proof. reflexivity. Qed.

Example validate_accepts : validate sampleIdentity sampleRepo = None.
Proof. reflexivity. Qed.

Section UpsertProperties.

Context {W : Type}.
Variable transport : Request -> W -> Reply * W.
Variable cfg : BuilderConfig.
Variables (identity : Identity.t)
          (repoUrl destinationServer destinationNamespace : string).

Local Abbreviation d :=
  (build cfg identity repoUrl destinationServer destinationNamespace).
Local Abbreviation upsert' :=
  (upsert transport cfg identity repoUrl destinationServer destinationNamespace).
Local Abbreviation upsertAndSync' :=
  (upsertAndSync transport cfg identity repoUrl destinationServer destinationNamespace).
Local Abbreviation Accepted' :=
  (Accepted transport cfg identity repoUrl destinationServer destinationNamespace).

(** C7, amended: when the input passes validation and the create is
    answered with 409, the orchestrator sends exactly one PUT carrying the
    same descriptor under the same name; if that PUT succeeds it is followed
    by exactly one sync call and the run ends in [Deployed], and if the PUT
    is refused the run ends in [Failed] with the PUT's error and no sync
    call is made. *)
Theorem conflict_leads_to_replace (w : W) (log : list Request)
    (b0 : string) (w1 : W) (r2 : Reply) (w2 : W) :
  validate identity repoUrl = None ->
  transport (PostApplications d) w = (Http 409 b0, w1) ->
  transport (PutApplication (Descriptor.name d) d) w1 = (r2, w2) ->
  (forall st body r3 w3,
      r2 = Http st body -> is2xx st = true ->
      transport (PostSync (Descriptor.name d) true) w2 = (r3, w3) ->
      upsert' (w, log)
      = (Deployed d body (failureOf r3),
         (w3, (log ++ [PostApplications d;
                       PutApplication (Descriptor.name d) d;
                       PostSync (Descriptor.name d) true])%list)))
  /\ (forall e,
         failureOf r2 = Some e ->
         upsert' (w, log)
         = (Failed e,
            (w2, (log ++ [PostApplications d;
                          PutApplication (Descriptor.name d) d])%list))).
Proof.
  intros V H1 H2. split.
  - intros st body r3 w3 -> Hst H3.
    now apply upsert_updated with (b0 := b0) (w1 := w1) (st := st) (w2 := w2).
  - intros e He.
    now apply upsert_update_refused with (b0 := b0) (w1 := w1) (r2 := r2).
Qed.

(** C8: for input that passes validation, once the create or the update
    has succeeded, a failing sync call leaves the result at [deployed] with
    the descriptor that was submitted, the sync failure is carried in the
    result, and the sync call is the last request made: nothing is sent to
    undo the definition. *)
Theorem sync_failure_is_isolated (w : W) (log : list Request)
    (raw : string) (w1 : W) (sent : list Request) (r : Reply) (w2 : W) (e : Error) :
  validate identity repoUrl = None ->
  Accepted' w raw w1 sent ->
  transport (PostSync (Descriptor.name d) true) w1 = (r, w2) ->
  failureOf r = Some e ->
  upsertAndSync' Deploy (w, log)
  = (Some (inr (mkOutput deployed d raw (Some e))),
     (w2, (log ++ sent ++ [PostSync (Descriptor.name d) true])%list)).
Proof.
  intros V Hacc Hsync He. unfold upsertAndSync, bind, ret.
  destruct Hacc as [st body w1 H1 H2 | b0 w1 st body w2' H1 H2 H3].
  - erewrite upsert_created by eassumption.
    cbn [resultOf]. now rewrite He.
  - erewrite upsert_updated by eassumption.
    cbn [resultOf]. now rewrite He.
Qed.

End UpsertProperties.

Lemma orElse_self s : orElse (Some s) EmptyString = s.
Proof.
  cbn [orElse]. destruct (falsy (Some s)) eqn:F; [| reflexivity].
  apply falsy_Some in F. now subst s.
Qed.

(** The backend operation, applied to the request that
    [handleGenerateYaml(deploy)] posts, is [upsertAndSync] on the fields of
    the form, in the mode that the pressed button stands for. *)
Lemma endpoint_request {W} (transport : Request -> W -> Reply * W)
    (cfg : BuilderConfig) (i : Workflow.Inputs) (deploy : bool)
    (s : W * list Request) :
  deployArgocdApp transport cfg (Workflow.request i deploy) s
  = upsertAndSync transport cfg
      (Identity.mk (Workflow.deviceName i) (Workflow.deviceId i))
      (Workflow.repoUrl i) (Workflow.destinationServer i)
      (Workflow.destinationNamespace i)
      (if deploy then Deploy else YamlOnly) s.
Proof.
  unfold deployArgocdApp, formField, modeOf, Workflow.formGet, Workflow.request.
  cbn [Workflow.form lookupOwn String.eqb Ascii.eqb Bool.eqb andb].
  rewrite !orElse_self. now destruct deploy.
Qed.

(** C9: the request that [handleGenerateYaml(false)] posts makes the backend
    operation run in [yaml_only] mode, and in that mode no request is sent
    to the controller and its state is unchanged, whatever the input; for
    input that passes validation the result is the builder's descriptor
    with status [yaml_only] and nothing else, and refused input gets the
    validation error.  The same form with the flag set by
    [handleGenerateYaml(true)] does reach the controller, starting with the
    create request. *)
Theorem yaml_only_sends_nothing {W} (transport : Request -> W -> Reply * W)
    (cfg : BuilderConfig) (i : Workflow.Inputs) (s : W * list Request) :
  let identity := Identity.mk (Workflow.deviceName i) (Workflow.deviceId i) in
  let d :=
    build cfg identity (Workflow.repoUrl i) (Workflow.destinationServer i)
      (Workflow.destinationNamespace i) in
  let preview := deployArgocdApp transport cfg (Workflow.request i false) s in
  let deploy := deployArgocdApp transport cfg (Workflow.request i true) s in
  snd preview = s
  /\ (validate identity (Workflow.repoUrl i) = None ->
      fst preview = Some (inr (mkOutput yaml_only d EmptyString None))
      /\ exists w' sent,
           snd deploy = (w', (snd s ++ PostApplications d :: sent)%list))
  /\ (forall e, validate identity (Workflow.repoUrl i) = Some e ->
        fst preview = Some (inl e))
  /\ (forall identity' repoUrl' server ns,
        snd (upsertAndSync transport cfg identity' repoUrl' server ns YamlOnly s) = s).
Proof.
  intros identity d preview deploy. subst preview deploy.
  rewrite !endpoint_request. fold identity.
  split; [reflexivity|]. split; [| split].
  - intros V. split.
    + unfold upsertAndSync, ret. cbn [fst]. now rewrite V.
    + destruct s as [w log]. unfold upsertAndSync, bind, ret.
      destruct (upsert_sends_create transport cfg identity (Workflow.repoUrl i)
                  (Workflow.destinationServer i) (Workflow.destinationNamespace i)
                  w log V) as (w' & sent & E).
      exists w', sent. cbn [snd] in *.
      destruct (upsert _ _ _ _ _ _ _) as [p s']. exact E.
  - intros e V. unfold upsertAndSync, ret. cbn [fst]. now rewrite V.
  - reflexivity.
Qed.

Lemma yaml_only_sends_nothing_witness :
  let i := Workflow.mkInputs sampleRepo "42" "pump station" EmptyString EmptyString
             "apps.example.com" in
  let d := build sampleConfig sampleIdentity sampleRepo EmptyString EmptyString in
  deployArgocdApp (mockController (fun _ => false)) sampleConfig
    (Workflow.request i false) ([], [])
  = (Some (inr (mkOutput yaml_only d EmptyString None)), ([], [])).
Proof.
  intros i d.
  destruct (yaml_only_sends_nothing (mockController (fun _ => false)) sampleConfig
              i ([], [])) as (H1 & H2 & _).
  destruct (H2 eq_refl) as [H3 _].
  destruct (deployArgocdApp _ _ _ _) as [r s']. cbn [fst snd] in *.
  now rewrite H1, H3.
Defined.

(** ** Repeated upserts against the mock controller *)

Section ResourceLists.

Implicit Types (x r : Descriptor.t) (w : list Descriptor.t) (n : string).

Lemma named_self x : named (Descriptor.name x) x = true.
Proof. apply String.eqb_refl. Qed.

Lemma named_eq n r : named n r = true <-> Descriptor.name r = n.
Proof. apply String.eqb_eq. Qed.

Lemma existsb_named_false n w :
  existsb (named n) w = false -> List.filter (named n) w = [].
Proof.
  induction w as [|r w IH]; [reflexivity|].
  cbn [existsb List.filter]. intros H. apply orb_false_iff in H as [Hr Hw].
  rewrite Hr. now apply IH.
Qed.

Lemma existsb_named_true n w :
  existsb (named n) w = true -> List.filter (named n) w <> [].
Proof.
  induction w as [|r w IH]; [discriminate|].
  cbn [existsb List.filter]. destruct (named n r); [discriminate|].
  exact IH.
Qed.

Lemma not_in_names n w :
  ~ In n (map Descriptor.name w) -> existsb (named n) w = false.
Proof.
  induction w as [|r w IH]; [reflexivity|].
  cbn [map In existsb]. intros H.
  destruct (named n r) eqn:E.
  - apply named_eq in E. tauto.
  - apply IH. tauto.
Qed.

(** Unique names: at most one resource answers to a name. *)
Lemma unique_names n w :
  List.NoDup (map Descriptor.name w) -> (length (List.filter (named n) w) <= 1)%nat.
Proof.
  induction w as [|r w IH]; cbn [map List.filter]; [cbn; lia|].
  intros H. apply List.NoDup_cons_iff in H as [Hr Hw].
  destruct (named n r) eqn:E; [| now apply IH].
  apply named_eq in E. subst n.
  rewrite (existsb_named_false _ _ (not_in_names _ _ Hr)). cbn. lia.
Qed.

Lemma filter_replaced x w :
  List.filter (named (Descriptor.name x))
    (map (fun r => if named (Descriptor.name x) r then x else r) w)
  = map (fun _ => x) (List.filter (named (Descriptor.name x)) w).
Proof.
  induction w as [|r w IH]; [reflexivity|].
  cbn [map List.filter]. destruct (named (Descriptor.name x) r) eqn:E.
  - rewrite named_self. cbn [map]. now rewrite IH.
  - rewrite E. exact IH.
Qed.

Lemma filter_others_replaced x w :
  List.filter (other (Descriptor.name x))
    (map (fun r => if named (Descriptor.name x) r then x else r) w)
  = List.filter (other (Descriptor.name x)) w.
Proof.
  induction w as [|r w IH]; [reflexivity|].
  cbn [map List.filter].
  assert (forall y, other (Descriptor.name x) y = negb (named (Descriptor.name x) y))
    as O by reflexivity.
  destruct (named (Descriptor.name x) r) eqn:E.
  - rewrite !O, named_self, E. cbn [negb]. exact IH.
  - rewrite !O, E. cbn [negb]. now rewrite IH.
Qed.

Lemma applied_one x w :
  List.NoDup (map Descriptor.name w) ->
  List.filter (named (Descriptor.name x)) (applied x w) = [x].
Proof.
  intros H. unfold applied.
  destruct (existsb (named (Descriptor.name x)) w) eqn:E.
  - rewrite filter_replaced.
    pose proof (unique_names (Descriptor.name x) w H) as L.
    pose proof (existsb_named_true _ _ E) as N.
    destruct (List.filter (named (Descriptor.name x)) w) as [|r [|r' l]];
      [contradiction | reflexivity | cbn in L; lia].
  - rewrite List.filter_app, (existsb_named_false _ _ E).
    cbn [List.filter]. now rewrite named_self.
Qed.

Lemma applied_others x w :
  List.filter (other (Descriptor.name x)) (applied x w)
  = List.filter (other (Descriptor.name x)) w.
Proof.
  unfold applied. destruct (existsb (named (Descriptor.name x)) w).
  - apply filter_others_replaced.
  - rewrite List.filter_app. cbn [List.filter].
    replace (other (Descriptor.name x) x) with false
      by (unfold other; now rewrite named_self).
    apply List.app_nil_r.
Qed.

Lemma replace_fixed x w :
  (forall r, In r (List.filter (named (Descriptor.name x)) w) -> r = x) ->
  map (fun r => if named (Descriptor.name x) r then x else r) w = w.
Proof.
  induction w as [|r w IH]; [reflexivity|].
  cbn [map List.filter]. intros H.
  destruct (named (Descriptor.name x) r) eqn:E.
  - assert (r = x) as -> by (apply H; now left).
    f_equal. apply IH. intros r' Hr'. apply H. now right.
  - f_equal. apply IH. exact H.
Qed.

(** Once the resource is there, a further upsert changes nothing. *)
Lemma applied_fixed x w :
  List.filter (named (Descriptor.name x)) w = [x] -> applied x w = w.
Proof.
  intros H. unfold applied.
  destruct (existsb (named (Descriptor.name x)) w) eqn:E.
  - apply replace_fixed. rewrite H. intros r [<- | []]. reflexivity.
  - rewrite (existsb_named_false _ _ E) in H. discriminate.
Qed.

End ResourceLists.

Section MockUpsert.

Variable syncFails : string -> bool.
Variable cfg : BuilderConfig.
Variables (identity : Identity.t)
          (repoUrl destinationServer destinationNamespace : string).

Local Abbreviation d :=
  (build cfg identity repoUrl destinationServer destinationNamespace).
Local Abbreviation mock := (mockController syncFails).
Local Abbreviation upsertAndSync' :=
  (upsertAndSync mock cfg identity repoUrl destinationServer destinationNamespace).
Local Abbreviation repeatUpsert' :=
  (repeatUpsert mock cfg identity repoUrl destinationServer destinationNamespace).

Lemma mock_sync n (w : list Descriptor.t) :
  exists r, mock (PostSync n true) w = (r, w).
Proof.
  unfold mockController.
  destruct (existsb (named n) w); [destruct (syncFails n)|]; eauto.
Qed.

(** One upsert against the mock controller succeeds and leaves [applied]. *)
Lemma mock_upsert (w : list Descriptor.t) (log : list Request) :
  validate identity repoUrl = None ->
  exists r log',
    upsertAndSync' Deploy (w, log) = (r, (applied d w, log'))
    /\ reportsDeployed d r.
Proof.
  intros V. unfold upsertAndSync, bind, ret, applied.
  destruct (existsb (named (Descriptor.name d)) w) eqn:E.
  - destruct (mock_sync (Descriptor.name d)
                (map (fun r => if named (Descriptor.name d) r then d else r) w))
      as [r3 H3].
    erewrite (upsert_updated mock cfg identity repoUrl destinationServer
                destinationNamespace w log);
      [ | exact V
        | unfold mockController; rewrite E; reflexivity
        | unfold mockController; rewrite E; reflexivity
        | reflexivity
        | exact H3 ].
    cbn [resultOf]. do 2 eexists. split; [reflexivity|].
    do 2 eexists. reflexivity.
  - destruct (mock_sync (Descriptor.name d) (w ++ [d])%list) as [r3 H3].
    erewrite (upsert_created mock cfg identity repoUrl destinationServer
                destinationNamespace w log);
      [ | exact V
        | unfold mockController; rewrite E; reflexivity
        | reflexivity
        | exact H3 ].
    cbn [resultOf]. do 2 eexists. split; [reflexivity|].
    do 2 eexists. reflexivity.
Qed.

Lemma repeat_fixed (k : nat) (w : list Descriptor.t) (log : list Request) :
  validate identity repoUrl = None ->
  List.filter (named (Descriptor.name d)) w = [d] ->
  fst (snd (repeatUpsert' k (w, log))) = w
  /\ length (fst (repeatUpsert' k (w, log))) = k
  /\ Forall (reportsDeployed d) (fst (repeatUpsert' k (w, log))).
Proof.
  intros V. revert w log. induction k as [|k IH]; intros w log H.
  - cbn. repeat split. constructor.
  - cbn [repeatUpsert].
    destruct (mock_upsert w log V) as (r & log' & -> & Hr).
    rewrite (applied_fixed _ _ H).
    destruct (IH w log' H) as (E1 & E2 & E3).
    destruct (repeatUpsert' k (w, log')) as [rs s2].
    cbn [fst snd length] in *. repeat split; [exact E1 | now rewrite E2 | now constructor].
Qed.

(** C6: for input that passes validation, starting from a controller whose
    resource names are unique, any positive number of identical upserts
    leaves exactly one resource under the canonical name, equal to the built
    descriptor; the other resources are untouched, and every one of the
    calls reports [deployed]. *)
Theorem upsert_converges_to_one_resource
    (w : list Descriptor.t) (log : list Request) (n : nat) :
  validate identity repoUrl = None ->
  List.NoDup (map Descriptor.name w) ->
  (0 < n)%nat ->
  let out := repeatUpsert' n (w, log) in
  List.filter (named (Descriptor.name d)) (fst (snd out)) = [d]
  /\ List.filter (other (Descriptor.name d)) (fst (snd out))
     = List.filter (other (Descriptor.name d)) w
  /\ length (fst out) = n
  /\ Forall (reportsDeployed d) (fst out).
Proof.
  intros V Hw Hn out. subst out.
  destruct n as [|k]; [lia|].
  cbn [repeatUpsert].
  destruct (mock_upsert w log V) as (r & log' & -> & Hr).
  pose proof (applied_one d w Hw) as H1.
  destruct (repeat_fixed k (applied d w) log' V H1) as (E1 & E2 & E3).
  destruct (repeatUpsert' k (applied d w, log')) as [rs s2].
  cbn [fst snd length] in *. rewrite E1.
  repeat split; [exact H1 | apply applied_others | now rewrite E2 | now constructor].
Qed.

End MockUpsert.

Lemma upsert_converges_to_one_resource_witness :
  let d := build sampleConfig sampleIdentity sampleRepo EmptyString EmptyString in
  let out :=
    repeatUpsert (mockController (fun _ => false)) sampleConfig sampleIdentity
      sampleRepo EmptyString EmptyString 3 ([], []) in
  List.filter (named "device-pump-station-42") (fst (snd out)) = [d]
  /\ length (fst out) = 3%nat.
Proof.
  intros d out.
  destruct (upsert_converges_to_one_resource (fun _ => false) sampleConfig
              sampleIdentity sampleRepo EmptyString EmptyString [] [] 3)
    as (H1 & _ & H3 & _).
  - reflexivity.
  - constructor.
  - lia.
  - split; [exact H1 | exact H3].
Defined.

(** C7, counterexample: the controller answers the create with 409 and the
    PUT with 500; the run ends in [Failed] and no sync call is made. *)
Lemma conflict_then_refused_update : ~ conflict_path_as_specified.
Proof.
  intros H.
  destruct (H (list Reply) scripted sampleConfig sampleIdentity sampleRepo
              EmptyString EmptyString
              [Http 409 "already exists"; Http 500 "internal error"]
              "already exists" [Http 500 "internal error"] eq_refl eq_refl)
    as (raw & sync & w' & E).
  vm_compute in E. discriminate E.
Qed.

Example conflict_then_refused_update_run :
  let d := build sampleConfig sampleIdentity sampleRepo EmptyString EmptyString in
  upsert scripted sampleConfig sampleIdentity sampleRepo EmptyString EmptyString
    ([Http 409 "already exists"; Http 500 "internal error"], [])
  = (Failed (ControllerRejected 500 "internal error"),
     ([], [PostApplications d; PutApplication "device-pump-station-42" d])).
Proof. reflexivity. Qed.

Lemma conflict_leads_to_replace_witness :
  let d := build sampleConfig sampleIdentity sampleRepo EmptyString EmptyString in
  upsert scripted sampleConfig sampleIdentity sampleRepo EmptyString EmptyString
    ([Http 409 "already exists"; Http 200 "updated"; Http 200 "synced"], [])
  = (Deployed d "updated" None,
     ([], [PostApplications d;
           PutApplication "device-pump-station-42" d;
           PostSync "device-pump-station-42" true])).
Proof.
  intros d.
  apply (proj1 (conflict_leads_to_replace scripted sampleConfig sampleIdentity
                  sampleRepo EmptyString EmptyString
                  [Http 409 "already exists"; Http 200 "updated"; Http 200 "synced"]
                  [] "already exists"
                  [Http 200 "updated"; Http 200 "synced"]
                  (Http 200 "updated") [Http 200 "synced"] eq_refl eq_refl eq_refl)
           200 "updated" (Http 200 "synced") [] eq_refl eq_refl eq_refl).
Defined.

Lemma sync_failure_is_isolated_witness :
  let d := build sampleConfig sampleIdentity sampleRepo EmptyString EmptyString in
  upsertAndSync (mockController (fun _ => true)) sampleConfig sampleIdentity
    sampleRepo EmptyString EmptyString Deploy ([], [])
  = (Some (inr (mkOutput deployed d "created"
                  (Some (ControllerRejected 500 "sync failed")))),
     ([d], [PostApplications d; PostSync "device-pump-station-42" true])).
Proof.
  intros d.
  apply (sync_failure_is_isolated (mockController (fun _ => true)) sampleConfig
           sampleIdentity sampleRepo EmptyString EmptyString
           [] [] "created" [d] [PostApplications d]
           (Http 500 "sync failed") [d] (ControllerRejected 500 "sync failed")).
  - reflexivity.
  - apply accepted_created with (st := 200); reflexivity.
  - reflexivity.
  - reflexivity.
Defined.

(** ** Workflow step 2 *)

Example preview_request :
  Workflow.request
    (Workflow.mkInputs sampleRepo "42" "pump station"
       "https://kubernetes.default.svc" EmptyString "apps.example.com") false
  = Workflow.mkCall "/api/deploy-argocd-app" "POST"
      [ ("repo_url", sampleRepo);
        ("device_id", "42");
        ("device_name", "pump station");
        ("destination_server", "https://kubernetes.default.svc");
        ("destination_namespace", EmptyString);
        ("cluster_fqdn", "apps.example.com");
        ("use_argocd_api", "false") ].
Proof. reflexivity. Qed.

Example preview_shown :
  Workflow.handleGenerateYaml false
    (Response 200 (Json (Workflow.mkPayload None (Some "kind: Application") None None)))
  = [ Workflow.setLoading true;
      Workflow.setError EmptyString;
      Workflow.setArgoYaml (Some "kind: Application");
      Workflow.setDeploymentStatus "yaml_only";
      Workflow.setArgoApiResponse EmptyString;
      Workflow.setStep 3;
      Workflow.setLoading false ].
Proof. reflexivity. Qed.

(** * Further properties of the dashboard and the workflow form *)

(** ** Fetching *)

Lemma thrown_fetch (clusterFqdn : string) (r : FetchResult AppsPayload)
    (m : string) (s : DashboardState) :
  fetchDevices_try clusterFqdn r = Thrown m ->
  fetchDevices clusterFqdn r
  = [setLoading true; setError EmptyString; setError m; setConnected false;
     setLoading false].
Proof. intros T. unfold fetchDevices. now rewrite T. Qed.

Lemma returned_fetch (clusterFqdn : string) (r : FetchResult AppsPayload)
    (us : list Update) :
  fetchDevices_try clusterFqdn r = Returned us ->
  fetchDevices clusterFqdn r
  = [setLoading true; setError EmptyString;
     setDevices (map (normalize clusterFqdn) (returnedApps r));
     setConnected true; setLoading false].
Proof.
  intros T. unfold fetchDevices. rewrite T.
  destruct r as [m | st [m | data]]; cbn [fetchDevices_try] in T;
    try discriminate T;
    (destruct (negb (ok st)); [discriminate T|]); [discriminate T|].
  destruct (negb (falsy (payload_error data))); [discriminate T|].
  injection T as <-. reflexivity.
Qed.

(** X1: a 2xx response whose body is not JSON, or whose JSON carries an [error]
    field, is handled like a failed request: the message is shown, the
    device list keeps its previous value in every intermediate state, and
    the connection is marked as down. *)
Theorem error_payload_keeps_devices
    (clusterFqdn : string) (status : Z) (body : Body AppsPayload) (m : string)
    (s : DashboardState) :
  ok status = true ->
  bodyFailure body = Some m ->
  run (fetchDevices clusterFqdn (Response status body)) s
  = mkDashboard (devices s) false m false
  /\ Forall (fun st => devices st = devices s)
       (states (fetchDevices clusterFqdn (Response status body)) s).
Proof.
  intros Hok Hb.
  assert (fetchDevices_try clusterFqdn (Response status body) = Thrown m) as T.
  { cbn [fetchDevices_try]. rewrite Hok. cbn [negb].
    destruct body as [m' | data]; cbn [bodyFailure] in Hb.
    - now injection Hb as ->.
    - destruct (falsy (payload_error data)); [discriminate Hb|].
      now injection Hb as <-. }
  rewrite (thrown_fetch _ _ _ s T).
  split; [reflexivity | now apply states_keep_devices].
Qed.

Lemma error_payload_keeps_devices_witness :
  let held := [deviceOf "device-pump-7"] in
  let s := mkDashboard held false EmptyString true in
  let body := Json (mkPayload (Some "ArgoCD unreachable") (Some [item (Some "device-x-1") None])) in
  run (fetchDevices EmptyString (Response 200 body)) s
  = mkDashboard held false "ArgoCD unreachable" false.
Proof.
  intros held s body.
  exact (proj1 (error_payload_keeps_devices EmptyString 200 body
                  "ArgoCD unreachable" s eq_refl eq_refl)).
Defined.

Lemma returned_updates (clusterFqdn : string) (r : FetchResult AppsPayload)
    (us : list Update) :
  fetchDevices_try clusterFqdn r = Returned us ->
  us = [setDevices (map (normalize clusterFqdn) (returnedApps r)); setConnected true].
Proof.
  intros T.
  destruct r as [m | st [m | data]]; cbn [fetchDevices_try] in T;
    try discriminate T;
    (destruct (negb (ok st)); [discriminate T|]); [discriminate T|].
  destruct (negb (falsy (payload_error data))); [discriminate T|].
  injection T as <-. reflexivity.
Qed.

Lemma fetchDevices_blocks (clusterFqdn : string) (r : FetchResult AppsPayload) :
  fetchDevices clusterFqdn r = (fetchStart ++ fetchFinish clusterFqdn r)%list.
Proof. reflexivity. Qed.

(** X2: what a call leaves when it ends does not depend on what other
    calls did while it was waiting, except for the fields it does not set.
    Starting its last block in any state [mid], the call ends with
    [loading] off; if its [try] block completed, the list is the projection
    of its own response and [connected] is on, and [error] is what it was
    in [mid]; if it threw, [error] is its own message, [connected] is off
    and the list is the one of [mid]. *)
Theorem fetch_finish_settles
    (clusterFqdn : string) (r : FetchResult AppsPayload) (mid : DashboardState) :
  let s' := run (fetchFinish clusterFqdn r) mid in
  loading s' = false
  /\ (forall us, fetchDevices_try clusterFqdn r = Returned us ->
        devices s' = map (normalize clusterFqdn) (returnedApps r)
        /\ connected s' = true
        /\ error s' = error mid)
  /\ (forall m, fetchDevices_try clusterFqdn r = Thrown m ->
        error s' = m
        /\ connected s' = false
        /\ devices s' = devices mid).
Proof.
  intros s'. subst s'. unfold fetchFinish.
  destruct (fetchDevices_try clusterFqdn r) as [us | m] eqn:T.
  - rewrite (returned_updates _ _ _ T). cbn.
    split; [reflexivity|]. split; [| intros m' [=]].
    intros _ _. repeat split.
  - cbn. split; [reflexivity|]. split; [intros us [=]|].
    intros m' [= <-]. repeat split.
Qed.

Lemma fetch_finish_settles_witness :
  let r := Response 200 (Json (mkPayload None (Some [item (Some "device-pump-7") None]))) in
  let mid := mkDashboard [deviceOf "old"] false "HTTP 500" false in
  let s' := run (fetchFinish EmptyString r) mid in
  map Device.deviceName (devices s') = ["pump"]
  /\ connected s' = true
  /\ error s' = "HTTP 500".
Proof.
  intros r mid s'.
  destruct (fetch_finish_settles EmptyString r mid) as (_ & H & _).
  destruct (H _ eq_refl) as (H1 & H2 & H3).
  fold s' in H1, H2, H3. rewrite H1. repeat split; assumption.
Defined.

(** X3: refreshing twice with the same outcome leaves the state that one
    refresh leaves. *)
Theorem refresh_idempotent
    (clusterFqdn : string) (r : FetchResult AppsPayload) (s : DashboardState) :
  run (fetchDevices clusterFqdn r) (run (fetchDevices clusterFqdn r) s)
  = run (fetchDevices clusterFqdn r) s.
Proof.
  destruct (fetchDevices_try clusterFqdn r) as [us | m] eqn:T.
  - now rewrite (returned_fetch _ _ _ T).
  - now rewrite (thrown_fetch _ _ _ s T).
Qed.

(** X5: after a response with a status outside 200-299 the dashboard shows the
    text [HTTP <status>] in place of the table, whatever list it holds and
    whatever the search, filter, sort and page settings are. *)
Theorem http_failure_hides_table
    (toLowerCase : string -> string) (lessThan : string -> string -> bool)
    (clusterFqdn : string)
    (status : Z) (body : Body AppsPayload) (s : DashboardState)
    (query statusFilter : string) (sortBy : SortBy) (page : Z) :
  ok status = false ->
  render toLowerCase lessThan
    (run (fetchDevices clusterFqdn (Response status body)) s)
    query statusFilter sortBy page
  = ErrorView ("HTTP " +:+ pretty status).
Proof.
  intros Hok.
  assert (fetchDevices_try clusterFqdn (Response status body)
          = Thrown ("HTTP " +:+ pretty status)) as T.
  { cbn [fetchDevices_try]. now rewrite Hok. }
  rewrite (thrown_fetch _ _ _ s T). reflexivity.
Qed.

Lemma http_failure_hides_table_witness :
  render asciiLower String.ltb
    (run (fetchDevices EmptyString (Response 502 (NotJson "Unexpected token <")))
       (mkDashboard [deviceOf "device-pump-7"] false EmptyString true))
    EmptyString "All" (mkSortBy byDeviceName asc) 1
  = ErrorView "HTTP 502".
Proof.
  apply (http_failure_hides_table asciiLower String.ltb EmptyString 502
           (NotJson "Unexpected token <")). reflexivity.
Defined.

(** ** Decoded fields and row keys *)

Lemma replaceAll_app c e a b :
  replaceAll c e (a +:+ b) = replaceAll c e a +:+ replaceAll c e b.
Proof.
  induction a as [|x a IH]; [reflexivity|].
  change (String x a +:+ b) with (String x (a +:+ b)).
  cbn [replaceAll]. now rewrite IH.
Qed.

Lemma replaceAll_absent c e s : contains c s = false -> replaceAll c e s = s.
Proof.
  induction s as [|x s IH]; [reflexivity|].
  cbn [contains replaceAll]. intros H.
  apply orb_false_iff in H as [Hx Hs]. now rewrite Hx, IH.
Qed.

Lemma trimmed_nonempty s : contains dash (trimmed s) = true -> s <> EmptyString.
Proof. intros H ->. discriminate H. Qed.

(** Both decoded fields are free of hyphens, also for an absent name. *)
Lemma parse_fields_clean (v : option string) :
  contains dash (deviceName (parseDeviceFields v)) = false
  /\ contains dash (deviceId (parseDeviceFields v)) = false.
Proof.
  destruct v as [s|]; [| split; reflexivity].
  destruct (contains dash (trimmed s)) eqn:E.
  - destruct (split_last_dash _ E) as (a & b & Ht & Hb).
    rewrite (parse_split s a b (trimmed_nonempty s E) Ht Hb).
    split; [apply replaceAll_clean | exact Hb].
  - rewrite (parse_no_dash s E). split; [exact E | reflexivity].
Qed.

(** X6: decoding loses nothing but the difference between hyphens and spaces:
    the id never contains a hyphen, and when the stripped name has a
    hyphen, the device name and the id joined by a space are the stripped
    name with its hyphens turned into spaces. *)
Theorem decoded_fields_rejoin :
  (forall v : option string,
      contains dash (deviceId (parseDeviceFields v)) = false)
  /\ (forall s : string,
         contains dash (trimmed s) = true ->
         deviceName (parseDeviceFields (Some s)) +:+ " "
           +:+ deviceId (parseDeviceFields (Some s))
         = replaceAll dash space (trimmed s)).
Proof.
  split; [intros v; apply parse_fields_clean|].
  intros s E.
  destruct (split_last_dash _ E) as (a & b & Ht & Hb).
  rewrite (parse_split s a b (trimmed_nonempty s E) Ht Hb), Ht.
  cbn [deviceName deviceId].
  rewrite replaceAll_app. cbn [replaceAll]. rewrite Ascii.eqb_refl.
  now rewrite (replaceAll_absent _ _ b Hb).
Qed.

Lemma decoded_fields_rejoin_witness :
  contains dash (trimmed "device-valve-a-12") = true
  /\ deviceName (parseDeviceFields (Some "device-valve-a-12")) +:+ " "
       +:+ deviceId (parseDeviceFields (Some "device-valve-a-12"))
     = "valve a 12".
Proof.
  split; [reflexivity|].
  apply (proj2 decoded_fields_rejoin "device-valve-a-12"). reflexivity.
Defined.

Lemma split_first_dash a a' b b' :
  contains dash a = false -> contains dash a' = false ->
  a +:+ String dash b = a' +:+ String dash b' ->
  a = a' /\ b = b'.
Proof.
  revert a'. induction a as [|x a IH]; intros [|x' a'] Ha Ha' E.
  - now injection E as ->.
  - injection E as <- _. cbn [contains] in Ha'.
    rewrite Ascii.eqb_refl in Ha'. discriminate Ha'.
  - injection E as -> _. cbn [contains] in Ha.
    rewrite Ascii.eqb_refl in Ha. discriminate Ha.
  - change (String x (a +:+ String dash b) = String x' (a' +:+ String dash b')) in E.
    injection E as -> E.
    cbn [contains] in Ha, Ha'.
    apply orb_false_iff in Ha as [_ Ha]. apply orb_false_iff in Ha' as [_ Ha'].
    destruct (IH a' Ha Ha' E) as [-> ->]. split; reflexivity.
Qed.

(** X7: the key of a table row determines the decoded name and id: since a
    decoded name has no hyphen, the first hyphen of the key is the
    separator.  Two rows with the same key therefore show the same device
    name and id, even when their application names differ. *)
Theorem row_key_unambiguous (fq1 fq2 : string) (a1 a2 : App.t) :
  rowKey (normalize fq1 a1) = rowKey (normalize fq2 a2) ->
  Device.deviceName (normalize fq1 a1) = Device.deviceName (normalize fq2 a2)
  /\ Device.deviceId (normalize fq1 a1) = Device.deviceId (normalize fq2 a2).
Proof.
  unfold rowKey. cbn [normalize Device.deviceName Device.deviceId].
  intros E. apply split_first_dash in E; [exact E | apply parse_fields_clean..].
Qed.

Lemma row_key_unambiguous_witness :
  let a1 := item (Some "device-pump-a-7") None in
  let a2 := item (Some "device-pump a-7") None in
  rowKey (normalize EmptyString a1) = "pump a-7"
  /\ Device.appName (normalize EmptyString a1) <> Device.appName (normalize EmptyString a2)
  /\ Device.deviceName (normalize EmptyString a1) = Device.deviceName (normalize EmptyString a2).
Proof.
  intros a1 a2. split; [reflexivity|]. split; [discriminate|].
  apply (row_key_unambiguous EmptyString EmptyString a1 a2). reflexivity.
Defined.

Lemma orElse_Some s : orElse (Some s) EmptyString = s.
Proof.
  cbn [orElse]. destruct (falsy (Some s)) eqn:F; [| reflexivity].
  apply falsy_Some in F. now subst s.
Qed.

Lemma orElse_truthy a e : e <> EmptyString -> orElse a e <> EmptyString.
Proof.
  intros He. destruct a as [s|]; cbn [orElse]; [| exact He].
  destruct (falsy (Some s)) eqn:F; [exact He|].
  intros ->. discriminate F.
Qed.

(** X8: links of a record: the repository link is never empty, the cluster
    name of the item is used when the item brings a non-empty one, and
    otherwise the one the user applied. *)
Theorem normalize_links (clusterFqdn : string) (app : App.t) :
  Device.repoUrl (normalize clusterFqdn app) <> EmptyString
  /\ (falsy (App.repoUrl app) = true ->
      Device.repoUrl (normalize clusterFqdn app) = "#")
  /\ (falsy (App.clusterFqdn app) = true ->
      Device.clusterFqdn (normalize clusterFqdn app) = clusterFqdn)
  /\ (forall c, App.clusterFqdn app = Some c -> c <> EmptyString ->
      Device.clusterFqdn (normalize clusterFqdn app) = c).
Proof.
  cbn [normalize Device.repoUrl Device.clusterFqdn].
  split; [apply orElse_truthy; discriminate|].
  split.
  { intros F. destruct (App.repoUrl app) as [u|]; cbn [orElse]; [| reflexivity].
    now rewrite F. }
  split.
  - intros F. rewrite orElse_Some.
    destruct (App.clusterFqdn app) as [c|]; cbn [orElse]; [| reflexivity].
    now rewrite F.
  - intros c -> Hc. cbn [orElse].
    destruct (falsy (Some c)) eqn:F; [| reflexivity].
    apply falsy_Some in F. contradiction.
Qed.

Lemma normalize_links_witness :
  let app := App.mk None (Some "device-pump-7") None None None None None None
               (Some "apps.edge.example.com") in
  Device.clusterFqdn (normalize "apps.lab.example.com" app) = "apps.edge.example.com"
  /\ Device.clusterFqdn (normalize "apps.lab.example.com" (item (Some "device-pump-7") None))
     = "apps.lab.example.com".
Proof.
  intros app. split.
  - apply (proj2 (proj2 (proj2 (normalize_links "apps.lab.example.com" app)))
             "apps.edge.example.com"); [reflexivity | discriminate].
  - apply (proj1 (proj2 (proj2 (normalize_links "apps.lab.example.com"
                                  (item (Some "device-pump-7") None))))).
    reflexivity.
Defined.

(** ** Search, filter and sort *)

Section SortFacts.

Context {A : Type}.
Variable cmp : A -> A -> Z.

Lemma insertBy_perm x l : Permutation (insertBy cmp x l) (x :: l).
Proof.
  induction l as [|y l IH]; cbn [insertBy]; [reflexivity|].
  destruct (cmp x y <=? 0); [reflexivity|].
  rewrite IH. apply perm_swap.
Qed.

Lemma sortWith_perm l : Permutation (sortWith cmp l) l.
Proof.
  induction l as [|x l IH]; [reflexivity|].
  cbn [sortWith fold_right]. fold (sortWith cmp l).
  rewrite insertBy_perm. now constructor.
Qed.

Section Ordered.

Variable R : A -> A -> Prop.
Hypothesis R_before : forall x y, cmp x y <= 0 -> R x y.
Hypothesis R_after : forall x y, 0 < cmp x y -> R y x.

Lemma insertBy_sorted x l : Sorted R l -> Sorted R (insertBy cmp x l).
Proof.
  induction l as [|y l IH]; intros S; cbn [insertBy].
  - repeat constructor.
  - destruct (Z.leb_spec (cmp x y) 0) as [L | G].
    + constructor; [exact S|]. constructor. now apply R_before.
    + apply Sorted_inv in S as [S H].
      constructor; [now apply IH|].
      destruct l as [|z l]; cbn [insertBy].
      * constructor. now apply R_after.
      * destruct (cmp x z <=? 0); constructor;
          [now apply R_after | now apply HdRel_inv in H].
Qed.

Lemma sortWith_sorted l : Sorted R (sortWith cmp l).
Proof.
  induction l as [|x l IH]; [constructor|].
  cbn [sortWith fold_right]. fold (sortWith cmp l). now apply insertBy_sorted.
Qed.

End Ordered.

(** Elements that the comparator does not separate keep their order. *)
Lemma insertBy_filter (P : A -> bool) x l :
  (forall y, P x = true -> P y = true -> cmp x y <= 0) ->
  List.filter P (insertBy cmp x l) = List.filter P (x :: l).
Proof.
  intros H. induction l as [|y l IH]; cbn [insertBy]; [reflexivity|].
  destruct (Z.leb_spec (cmp x y) 0) as [L | G]; [reflexivity|].
  cbn [List.filter] in *. rewrite IH.
  destruct (P x) eqn:Px, (P y) eqn:Py; try reflexivity.
  specialize (H y eq_refl Py). lia.
Qed.

Lemma sortWith_filter (P : A -> bool) l :
  (forall x y, P x = true -> P y = true -> cmp x y <= 0) ->
  List.filter P (sortWith cmp l) = List.filter P l.
Proof.
  intros H. induction l as [|x l IH]; [reflexivity|].
  cbn [sortWith fold_right]. fold (sortWith cmp l).
  rewrite insertBy_filter by (intros y; apply H).
  cbn [List.filter]. now rewrite IH.
Qed.

End SortFacts.

Lemma filter_all {A} (l : list A) : List.filter (fun _ => true) l = l.
Proof. induction l as [|x l IH]; cbn; [reflexivity | now rewrite IH]. Qed.

Lemma filter_twice {A} (f g : A -> bool) (l : list A) :
  List.filter g (List.filter f l) = List.filter (fun x => f x && g x) l.
Proof.
  induction l as [|x l IH]; [reflexivity|].
  cbn [List.filter]. destruct (f x); cbn [List.filter andb]; [| exact IH].
  destruct (g x); now rewrite IH.
Qed.

Lemma ltb_Lt a b : String.ltb a b = true <-> String.compare a b = Lt.
Proof. unfold String.ltb. destruct (String.compare a b); split; congruence. Qed.

Lemma ltb_asym a b : String.ltb a b = true -> String.ltb b a = false.
Proof.
  intros H. apply ltb_Lt in H. unfold String.ltb.
  rewrite String.compare_antisym, H. reflexivity.
Qed.

Section PresentationFacts.

Variable toLowerCase : string -> string.
Variable lessThan : string -> string -> bool.

Local Abbreviation cmpBy := (compareDevices toLowerCase lessThan).
Local Abbreviation valueOf := (sortValue toLowerCase).

Lemma compare_before sortBy a b :
  asymmetric lessThan ->
  cmpBy sortBy a b <= 0 -> inOrder toLowerCase lessThan sortBy a b.
Proof.
  intros Asym. unfold compareDevices, inOrder.
  destruct (lessThan (valueOf sortBy a) (valueOf sortBy b)) eqn:L1.
  - pose proof (Asym _ _ L1) as L2.
    destruct (sortDir sortBy); [intros _; exact L2 | lia].
  - destruct (lessThan (valueOf sortBy b) (valueOf sortBy a)) eqn:L2;
      destruct (sortDir sortBy); try lia; reflexivity.
Qed.

Lemma compare_after sortBy a b :
  asymmetric lessThan ->
  0 < cmpBy sortBy a b -> inOrder toLowerCase lessThan sortBy b a.
Proof.
  intros Asym. unfold compareDevices, inOrder.
  destruct (lessThan (valueOf sortBy a) (valueOf sortBy b)) eqn:L1.
  - destruct (sortDir sortBy); [lia | intros _].
    now apply Asym.
  - destruct (lessThan (valueOf sortBy b) (valueOf sortBy a)) eqn:L2; [| lia].
    destruct (sortDir sortBy); [reflexivity | lia].
Qed.

Lemma compare_same sortBy a b :
  asymmetric lessThan ->
  valueOf sortBy a = valueOf sortBy b -> cmpBy sortBy a b = 0.
Proof.
  intros Asym E. unfold compareDevices. rewrite E.
  destruct (lessThan (valueOf sortBy b) (valueOf sortBy b)) eqn:L; [| reflexivity].
  pose proof (Asym _ _ L). congruence.
Qed.

Lemma filtered_eq devices query statusFilter sortBy :
  filtered toLowerCase lessThan devices query statusFilter sortBy
  = sortWith (cmpBy sortBy)
      (List.filter (accepts toLowerCase query statusFilter) devices).
Proof.
  unfold filtered, accepts. f_equal.
  destruct (falsy (Some query)), (String.eqb statusFilter "All"); cbn [negb orb].
  - now rewrite filter_all.
  - apply List.filter_ext. intros d. reflexivity.
  - apply List.filter_ext. intros d. now rewrite andb_true_r.
  - apply filter_twice.
Qed.

(** X9: the rows handed to the table are in the order asked for: going
    down the list, the lower-cased value of the sort column is never
    followed by a smaller one when the direction is ascending, and never by
    a greater one when it is descending.  The comparison of strings is the
    platform's; all that is used of it is that it never holds in both
    directions. *)
Theorem filtered_in_order (devices : list Device.t) (query statusFilter : string)
    (sortBy : SortBy) :
  asymmetric lessThan ->
  Sorted (inOrder toLowerCase lessThan sortBy)
    (filtered toLowerCase lessThan devices query statusFilter sortBy).
Proof.
  intros Asym. rewrite filtered_eq.
  apply sortWith_sorted; intros x y; [now apply compare_before | now apply compare_after].
Qed.

(** X10: the rows are exactly the devices that pass the search box and the
    health filter, each one once; with an empty search box and the filter
    on [All] no device is left out. *)
Theorem filtered_exact (devices : list Device.t) (query statusFilter : string)
    (sortBy : SortBy) :
  Permutation (filtered toLowerCase lessThan devices query statusFilter sortBy)
    (List.filter (accepts toLowerCase query statusFilter) devices)
  /\ (query = EmptyString -> statusFilter = "All" ->
      Permutation (filtered toLowerCase lessThan devices query statusFilter sortBy)
        devices).
Proof.
  rewrite filtered_eq. split; [apply sortWith_perm|].
  intros -> ->. rewrite sortWith_perm.
  unfold accepts. cbn. now rewrite filter_all.
Qed.

(** X11: sorting is stable: the rows that share a sort value appear in the
    order in which the fetch delivered them. *)
Theorem filtered_keeps_order_of_equals (devices : list Device.t)
    (query statusFilter : string) (sortBy : SortBy) (v : string) :
  asymmetric lessThan ->
  List.filter (fun d => String.eqb (valueOf sortBy d) v)
    (filtered toLowerCase lessThan devices query statusFilter sortBy)
  = List.filter (fun d => String.eqb (valueOf sortBy d) v)
      (List.filter (accepts toLowerCase query statusFilter) devices).
Proof.
  intros Asym. rewrite filtered_eq. apply sortWith_filter.
  intros x y Hx Hy. apply String.eqb_eq in Hx, Hy.
  rewrite (compare_same _ _ _ Asym) by congruence. lia.
Qed.

End PresentationFacts.

Lemma ltb_asymmetric : asymmetric String.ltb.
Proof. intros a b. apply ltb_asym. Qed.

Lemma filtered_in_order_witness :
  let ds := [deviceOf "device-valve-2"; deviceOf "device-Pump-7"; deviceOf "guestbook"] in
  Sorted (inOrder asciiLower String.ltb (mkSortBy byDeviceName desc))
    (filtered asciiLower String.ltb ds EmptyString "All" (mkSortBy byDeviceName desc)).
Proof.
  intros ds.
  apply (filtered_in_order asciiLower String.ltb ds EmptyString "All"
           (mkSortBy byDeviceName desc) ltb_asymmetric).
Defined.

Lemma filtered_keeps_order_of_equals_witness :
  let ds := [deviceOf "device-Pump-7"; deviceOf "device-valve-2"; deviceOf "device-pump-9"] in
  map Device.deviceId
    (List.filter (fun d => String.eqb (sortValue asciiLower (mkSortBy byDeviceName asc) d) "pump")
       (filtered asciiLower String.ltb ds EmptyString "All" (mkSortBy byDeviceName asc)))
  = ["7"; "9"].
Proof.
  intros ds.
  rewrite (filtered_keeps_order_of_equals asciiLower String.ltb ds EmptyString "All"
             (mkSortBy byDeviceName asc) "pump" ltb_asymmetric).
  reflexivity.
Defined.

Lemma filtered_exact_witness :
  let ds := [deviceOf "device-valve-2"; deviceOf "device-Pump-7"; deviceOf "guestbook"] in
  Permutation (filtered asciiLower String.ltb ds EmptyString "All" (mkSortBy byDeviceName asc)) ds.
Proof.
  intros ds.
  apply (proj2 (filtered_exact asciiLower String.ltb ds EmptyString "All"
                  (mkSortBy byDeviceName asc))); reflexivity.
Defined.

Example filtered_sorts_without_case :
  map Device.deviceName
    (filtered asciiLower String.ltb
       [deviceOf "device-valve-2"; deviceOf "device-Pump-7"; deviceOf "guestbook"]
       EmptyString "All" (mkSortBy byDeviceName asc))
  = ["guestbook"; "Pump"; "valve"].
Proof. reflexivity. Qed.

Example filtered_search :
  map Device.deviceName
    (filtered asciiLower String.ltb
       [deviceOf "device-valve-2"; deviceOf "device-Pump-7"; deviceOf "guestbook"]
       "PU" "All" (mkSortBy byDeviceName desc))
  = ["Pump"].
Proof. reflexivity. Qed.

(** ** Pages *)

Lemma totalPages_bounds {A} (l : list A) :
  1 <= totalPages l
  /\ Z.of_nat (length l) <= 8 * totalPages l
  /\ (l <> [] -> 8 * (totalPages l - 1) < Z.of_nat (length l)).
Proof.
  unfold totalPages, ceilDiv, pageSize.
  assert (l <> [] -> 0 < Z.of_nat (length l)) as N.
  { destruct l; [congruence | cbn [length]; lia]. }
  split; [lia|]. split; [| intros H; specialize (N H)];
    Z.div_mod_to_equations; lia.
Qed.

Lemma pageData_take {A} (l : list A) (k : nat) :
  pageData l (Z.of_nat (S k)) = firstn 8 (skipn (8 * k) l).
Proof.
  unfold pageData, sliceList, pageSize.
  set (n := length l).
  replace ((Z.of_nat (S k) - 1) * 8) with (Z.of_nat (8 * k)) by lia.
  replace (Z.of_nat (S k) * 8) with (Z.of_nat (8 * k) + 8) by lia.
  unfold clampIndex.
  destruct (Z.ltb_spec (Z.of_nat (8 * k)) 0) as [?|_]; [lia|].
  destruct (Z.ltb_spec (Z.of_nat (8 * k) + 8) 0) as [?|_]; [lia|].
  destruct (Nat.le_gt_cases n (8 * k)) as [Hge | Hlt].
  - replace (Z.to_nat (Z.min (Z.of_nat (8 * k)) (Z.of_nat n))) with n by lia.
    rewrite !skipn_all2 by (fold n; lia). now rewrite !firstn_nil.
  - replace (Z.to_nat (Z.min (Z.of_nat (8 * k)) (Z.of_nat n))) with (8 * k)%nat by lia.
    destruct (Nat.le_gt_cases (8 * k + 8) n) as [Hfull | Hpart].
    + f_equal. lia.
    + replace (Z.to_nat _) with (n - 8 * k)%nat by lia.
      rewrite !firstn_all2; [reflexivity | |]; rewrite length_skipn; fold n; lia.
Qed.

Lemma pages_concat {A} (l : list A) (m : nat) :
  concat (map (fun i => pageData l (Z.of_nat i)) (seq 1 m)) = firstn (8 * m) l.
Proof.
  induction m as [|m IH]; [reflexivity|].
  rewrite seq_S, map_app, concat_app, IH. cbn [map concat Nat.add].
  rewrite pageData_take, List.app_nil_r.
  replace (8 * S m)%nat with (8 * m + 8)%nat by lia.
  apply take_take_drop.
Qed.

(** X14: the pages [1 .. totalPages] cut the rows into consecutive pieces:
    strung together they are the whole list again, no page has more than
    eight rows, and when there are rows at all none of these pages is
    empty. *)
Theorem pages_partition {A} (l : list A) :
  concat (map (pageData l) (pageNumbers l)) = l
  /\ (forall p, 1 <= p <= totalPages l ->
        (length (pageData l p) <= 8)%nat
        /\ (l <> [] -> pageData l p <> [])).
Proof.
  destruct (totalPages_bounds l) as (T1 & T2 & T3).
  split.
  - unfold pageNumbers. rewrite map_map, pages_concat.
    apply firstn_all2. lia.
  - intros p [P1 P2].
    replace p with (Z.of_nat (S (Z.to_nat (p - 1)))) by lia.
    rewrite pageData_take. split.
    + rewrite length_firstn. lia.
    + intros Hl E. specialize (T3 Hl).
      apply (f_equal (@length A)) in E.
      rewrite length_firstn, length_skipn in E. cbn [length] in E. lia.
Qed.

Lemma pages_partition_witness :
  let l := seq 0 19 in
  totalPages l = 3
  /\ pageData l 3 = [16; 17; 18]%nat
  /\ pageData l 3 <> [].
Proof.
  intros l. split; [reflexivity|]. split; [reflexivity|].
  apply (proj2 (pages_partition l) 3); [split; vm_compute; discriminate | discriminate].
Defined.

(** X15: [Prev] and [Next] keep the page number between 1 and [totalPages];
    they move by one inside that range and do nothing at its ends. *)
Theorem page_navigation_in_range {A} (l : list A) (p : Z) :
  1 <= p <= totalPages l ->
  1 <= onPrev p <= totalPages l
  /\ 1 <= onNext (totalPages l) p <= totalPages l
  /\ onPrev p = (if p =? 1 then p else p - 1)
  /\ onNext (totalPages l) p = (if p =? totalPages l then p else p + 1).
Proof.
  intros H. unfold onPrev, onNext.
  destruct (Z.eqb_spec p 1), (Z.eqb_spec p (totalPages l)); lia.
Qed.

Lemma page_navigation_in_range_witness :
  onPrev 1 = 1 /\ onNext (totalPages (seq 0 19)) 3 = 3 /\ onNext (totalPages (seq 0 19)) 2 = 3.
Proof.
  destruct (page_navigation_in_range (seq 0 19) 3) as (_ & _ & _ & H3);
    [split; vm_compute; discriminate|].
  split; [reflexivity|]. split; [exact H3 | reflexivity].
Defined.

(** X16: the page number is not reset when the list gets shorter.  A page
    beyond the last one shows no rows; from there [Next] goes to the last
    page, while [Prev] only goes back by one. *)
Theorem stale_page_is_empty {A} (l : list A) (p : Z) :
  totalPages l < p ->
  pageData l p = []
  /\ onNext (totalPages l) p = totalPages l
  /\ onPrev p = p - 1.
Proof.
  intros H. destruct (totalPages_bounds l) as (T1 & T2 & _).
  split; [| unfold onPrev, onNext; lia].
  replace p with (Z.of_nat (S (Z.to_nat (p - 1)))) by lia.
  rewrite pageData_take, skipn_all2 by lia. apply firstn_nil.
Qed.

Lemma stale_page_is_empty_witness :
  let shorter := seq 0 5 in
  totalPages shorter = 1 /\ pageData shorter 3 = [] /\ onNext (totalPages shorter) 3 = 1.
Proof.
  intros shorter.
  destruct (stale_page_is_empty shorter 3) as (H1 & H2 & _); [reflexivity|].
  split; [reflexivity|]. split; [exact H1 | exact H2].
Defined.



(** ** Row links *)

Lemma includes_app a q b : includes (a +:+ q +:+ b) q = true.
Proof.
  induction a as [|x a IH].
  - change (EmptyString +:+ q +:+ b) with (q +:+ b).
    destruct (q +:+ b) eqn:E; cbn [includes]; rewrite <- E, startsWith_app; reflexivity.
  - change (String x a +:+ q +:+ b) with (String x (a +:+ q +:+ b)).
    cbn [includes]. rewrite IH. apply orb_true_r.
Qed.

Lemma removeSuffix_app suffix x : removeSuffix suffix (x +:+ suffix) = x.
Proof.
  induction x as [|c x IH].
  - change (EmptyString +:+ suffix) with suffix.
    destruct suffix; cbn [removeSuffix]; now rewrite String.eqb_refl.
  - change (String c x +:+ suffix) with (String c (x +:+ suffix)).
    cbn [removeSuffix]. rewrite IH.
    replace (String.eqb (String c (x +:+ suffix)) suffix) with false; [reflexivity|].
    symmetry. apply String.eqb_neq. intros E.
    apply (f_equal len) in E. rewrite len_String, len_app in E.
    pose proof (len_nonneg x). lia.
Qed.

Lemma removeSuffix_none suffix s :
  endsWith s suffix = false -> removeSuffix suffix s = s.
Proof.
  induction s as [|c s IH]; cbn [endsWith removeSuffix]; intros H;
    apply orb_false_iff in H as [H1 H2]; rewrite H1; [reflexivity|].
  now rewrite IH.
Qed.

Lemma split_single c a : contains c a = false -> split c a = [a].
Proof.
  induction a as [|x a IH]; [reflexivity|].
  cbn [contains split]. intros H. apply orb_false_iff in H as [Hx Ha].
  now rewrite Hx, (IH Ha).
Qed.

Lemma split_at c a b :
  contains c a = false -> split c (a +:+ String c b) = a :: split c b.
Proof.
  induction a as [|x a IH]; intros H.
  - change (EmptyString +:+ String c b) with (String c b).
    cbn [split]. now rewrite Ascii.eqb_refl.
  - change (String x a +:+ String c b) with (String x (a +:+ String c b)).
    cbn [contains] in H. apply orb_false_iff in H as [Hx Ha].
    cbn [split]. now rewrite Hx, (IH Ha).
Qed.

Lemma truthy_nonempty s : s <> EmptyString -> falsy (Some s) = false.
Proof.
  intros H. destruct (falsy (Some s)) eqn:F; [| reflexivity].
  apply falsy_Some in F. contradiction.
Qed.

Section RowLinkFacts.

Variable parseURL : string -> option ParsedURL.

(** X18: there is no Edit link without a repository or without a Dev Spaces
    address: an item that brings no repository URL gets none, whatever the
    parser would say about the placeholder, and neither does any row when
    the Dev Spaces address is empty or the host of the repository does not
    contain [github.com]. *)
Theorem no_edit_link (baseUrl repoUrl clusterFqdn : string) (app : App.t) :
  (falsy (App.repoUrl app) = true ->
   buildDevSpacesLink parseURL baseUrl (Device.repoUrl (normalize clusterFqdn app))
   = None)
  /\ buildDevSpacesLink parseURL EmptyString repoUrl = None
  /\ (forall u, parseURL repoUrl = Some u ->
        includes (hostname u) "github.com" = false ->
        buildDevSpacesLink parseURL baseUrl repoUrl = None).
Proof.
  split; [| split].
  - intros F. cbn [normalize Device.repoUrl].
    replace (orElse (App.repoUrl app) "#") with "#".
    + unfold buildDevSpacesLink. cbn [String.eqb Ascii.eqb Bool.eqb].
      now rewrite !orb_true_r.
    + destruct (App.repoUrl app) as [u|]; cbn [orElse]; [now rewrite F | reflexivity].
  - reflexivity.
  - intros u Hu Hh. unfold buildDevSpacesLink.
    destruct (falsy (Some baseUrl) || falsy (Some repoUrl) || String.eqb repoUrl "#");
      [reflexivity|].
    now rewrite Hu, Hh.
Qed.

(** X19: for a repository [github.com/<owner>/<repo>] the Edit link points at
    the raw [devfile.yaml] on [main] of that repository.  The link is the
    same whether or not the repository URL ends in [.git] and whether or
    not the Dev Spaces address ends in a slash. *)
Theorem edit_link_for_github
    (baseUrl repoUrl stem host owner repo path : string) :
  stem <> EmptyString -> endsWith stem "/" = false ->
  baseUrl = stem \/ baseUrl = stem +:+ "/" ->
  repoUrl <> EmptyString -> repoUrl <> "#" ->
  includes host "github.com" = true ->
  owner <> EmptyString -> contains "/" owner = false ->
  repo <> EmptyString -> contains "/" repo = false ->
  path = "/" +:+ owner +:+ "/" +:+ repo ->
  endsWith path ".git" = false ->
  parseURL repoUrl = Some (mkURL host path)
  \/ parseURL repoUrl = Some (mkURL host (path +:+ ".git")) ->
  buildDevSpacesLink parseURL baseUrl repoUrl = Some (devfileLink stem owner repo).
Proof.
  intros Hstem Hslash Hbase Hrepo Hhash Hhost Ho Hos Hr Hrs -> Hgit Hparse.
  assert (baseUrl <> EmptyString) as Hb.
  { destruct Hbase as [-> | ->]; [exact Hstem|].
    destruct stem; [contradiction | discriminate]. }
  assert (removeSuffix "/" baseUrl = stem) as Estem.
  { destruct Hbase as [-> | ->];
      [now apply removeSuffix_none | apply removeSuffix_app]. }
  unfold buildDevSpacesLink.
  rewrite (truthy_nonempty _ Hb), (truthy_nonempty _ Hrepo).
  apply String.eqb_neq in Hhash. rewrite Hhash. cbn [orb].
  assert (forall u, parseURL repoUrl = Some u ->
            hostname u = host /\
            removeSuffix ".git" (pathname u) = "/" +:+ owner +:+ "/" +:+ repo) as P.
  { intros u Hu. destruct Hparse as [E | E]; rewrite E in Hu;
      injection Hu as <-; cbn [hostname pathname]; split; try reflexivity.
    - now apply removeSuffix_none.
    - apply removeSuffix_app. }
  destruct (parseURL repoUrl) as [u|] eqn:Hu;
    [| destruct Hparse; discriminate].
  destruct (P u eq_refl) as [-> ->]. rewrite Hhost. cbn [negb].
  change ("/" +:+ owner +:+ "/" +:+ repo)
    with (EmptyString +:+ String "/" (owner +:+ String "/" repo)).
  rewrite (split_at "/" EmptyString) by reflexivity.
  rewrite (split_at "/" owner) by exact Hos.
  rewrite (split_single "/" repo) by exact Hrs.
  cbn [List.filter]. change (falsy (Some EmptyString)) with true. cbn [negb].
  rewrite (truthy_nonempty _ Ho), (truthy_nonempty _ Hr). cbn [negb].
  now rewrite Estem.
Qed.

End RowLinkFacts.

Lemma no_edit_link_witness :
  buildDevSpacesLink (fun _ => Some (mkURL "github.com" "/acme/pump"))
    "https://devspaces.example.com"
    (Device.repoUrl (normalize EmptyString (item (Some "device-pump-7") None)))
  = None.
Proof.
  apply (proj1 (no_edit_link (fun _ => Some (mkURL "github.com" "/acme/pump"))
                  "https://devspaces.example.com" EmptyString EmptyString
                  (item (Some "device-pump-7") None))).
  reflexivity.
Defined.

Lemma edit_link_for_github_witness :
  buildDevSpacesLink
    (parseOnly "https://github.com/acme/device-pump-7.git"
       (mkURL "github.com" "/acme/device-pump-7.git"))
    "https://devspaces.example.com/" "https://github.com/acme/device-pump-7.git"
  = Some "https://devspaces.example.com/#/https://raw.githubusercontent.com/acme/device-pump-7/refs/heads/main/devfile.yaml".
Proof.
  apply (edit_link_for_github
           (parseOnly "https://github.com/acme/device-pump-7.git"
              (mkURL "github.com" "/acme/device-pump-7.git"))
           "https://devspaces.example.com/" "https://github.com/acme/device-pump-7.git"
           "https://devspaces.example.com" "github.com" "acme" "device-pump-7"
           "/acme/device-pump-7");
    try discriminate; try reflexivity.
  - right. reflexivity.
  - right. reflexivity.
Defined.

(** ** Workflow form *)

(** X20: when a step of the wizard fails (the request is rejected, the body is
    not JSON, or it carries an [error] field), the wizard stays on its
    step with everything it held, shows the message, and is no longer
    loading.  This holds for both steps. *)
Theorem wizard_failure_stays_put (s : Wizard.State) (m : string) :
  (forall r : FetchResult Wizard.RepoPayload,
      Wizard.thrown Wizard.repo_error r = Some m ->
      Wizard.run (Wizard.handleCreateRepo r) s
      = Wizard.mkState (Wizard.step s) (Wizard.repoUrl s) (Wizard.argoYaml s)
          (Wizard.deploymentStatus s) (Wizard.argoApiResponse s) false m)
  /\ (forall (deploy : bool) (r : FetchResult Workflow.Payload),
         Wizard.thrown Workflow.error r = Some m ->
         Wizard.run (Wizard.handleGenerateYaml deploy r) s
         = Wizard.mkState (Wizard.step s) (Wizard.repoUrl s) (Wizard.argoYaml s)
             (Wizard.deploymentStatus s) (Wizard.argoApiResponse s) false m).
Proof.
  split.
  - intros r T. unfold Wizard.handleCreateRepo.
    destruct r as [m' | st [m' | data]]; cbn [Wizard.thrown] in T.
    + now injection T as ->.
    + now injection T as ->.
    + destruct (negb (falsy (Wizard.repo_error data))); [| discriminate T].
      now injection T as ->.
  - intros deploy r T. unfold Wizard.handleGenerateYaml, Workflow.handleGenerateYaml.
    destruct r as [m' | st [m' | data]]; cbn [Wizard.thrown] in T.
    + now injection T as ->.
    + now injection T as ->.
    + destruct (negb (falsy (Workflow.error data))); [| discriminate T].
      now injection T as ->.
Qed.

Lemma wizard_failure_stays_put_witness :
  let s := Wizard.mkState 2 (Some "https://github.com/acme/device-pump-7")
             (Some EmptyString) EmptyString EmptyString false EmptyString in
  Wizard.run
    (Wizard.handleGenerateYaml true
       (Response 200 (Json (Workflow.mkPayload (Some "ArgoCD API error") None None None)))) s
  = Wizard.mkState 2 (Some "https://github.com/acme/device-pump-7")
      (Some EmptyString) EmptyString EmptyString false "ArgoCD API error".
Proof.
  intros s.
  apply (proj2 (wizard_failure_stays_put s "ArgoCD API error") true). reflexivity.
Defined.

(** X21: when the repository step gets a JSON body without [error], it moves to
    step 2 with the returned repository URL and clears what an earlier
    deployment left on screen.  The HTTP status plays no part: a response
    with a failure status and such a body advances the wizard all the
    same. *)
Theorem create_repo_advances
    (status : Z) (data : Wizard.RepoPayload) (s : Wizard.State) :
  falsy (Wizard.repo_error data) = true ->
  Wizard.run (Wizard.handleCreateRepo (Response status (Json data))) s
  = Wizard.mkState 2 (Wizard.repo_url data) (Some EmptyString)
      EmptyString EmptyString false EmptyString.
Proof.
  intros F. unfold Wizard.handleCreateRepo. now rewrite F.
Qed.

Lemma create_repo_advances_witness :
  Wizard.run
    (Wizard.handleCreateRepo
       (Response 500 (Json (Wizard.mkRepoPayload None None))))
    (Wizard.mkState 1 None (Some "kind: Application") "deployed" "{}" false EmptyString)
  = Wizard.mkState 2 None (Some EmptyString) EmptyString EmptyString false EmptyString.
Proof.
  apply (create_repo_advances 500 (Wizard.mkRepoPayload None None)). reflexivity.
Defined.

(** X22: when the deployment step gets a JSON body without [error], it moves to
    step 3 and shows the returned manifest; the mode shown is the one the
    backend reports, and only when it reports none the one that was asked
    for.  Here too the HTTP status plays no part. *)
Theorem generate_yaml_advances
    (deploy : bool) (status : Z) (data : Workflow.Payload) (s : Wizard.State) :
  falsy (Workflow.error data) = true ->
  Wizard.run (Wizard.handleGenerateYaml deploy (Response status (Json data))) s
  = Wizard.mkState 3 (Wizard.repoUrl s) (Workflow.argocd_yaml data)
      (orElse (Workflow.status data) (if deploy then "deployed" else "yaml_only"))
      (orElse (Workflow.argocd_response data) EmptyString) false EmptyString.
Proof.
  intros F. unfold Wizard.handleGenerateYaml, Workflow.handleGenerateYaml.
  now rewrite F.
Qed.

Lemma generate_yaml_advances_witness :
  Wizard.deploymentStatus
    (Wizard.run
       (Wizard.handleGenerateYaml true
          (Response 200 (Json (Workflow.mkPayload None (Some "kind: Application")
                                 (Some "yaml_only") None))))
       (Wizard.mkState 2 None None EmptyString EmptyString false EmptyString))
  = "yaml_only".
Proof.
  rewrite (generate_yaml_advances true 200
             (Workflow.mkPayload None (Some "kind: Application") (Some "yaml_only") None)
             _ eq_refl).
  reflexivity.
Defined.

(** ** ArgoCD URL auto-fill *)

(** X23: the effect keeps the ArgoCD URL in step with the cluster name as long
    as the URL is empty or was filled in by the effect, and it never
    touches a URL of another shape or reacts to an empty cluster name. *)
Theorem argocd_url_autofill (fq1 fq2 url : string) :
  (fq2 <> EmptyString ->
   autoFillArgocdUrl fq2 (autoFillArgocdUrl fq1 EmptyString)
   = "https://" +:+ gitopsHost +:+ "." +:+ fq2)
  /\ (url <> EmptyString -> includes url gitopsHost = false ->
      autoFillArgocdUrl fq2 url = url)
  /\ autoFillArgocdUrl EmptyString url = url.
Proof.
  split; [| split].
  - intros H2. unfold autoFillArgocdUrl at 2.
    destruct (negb (falsy (Some fq1)) && _).
    + unfold autoFillArgocdUrl. rewrite (truthy_nonempty _ H2).
      rewrite (includes_app "https://" gitopsHost ("." +:+ fq1)).
      now rewrite orb_true_r.
    + unfold autoFillArgocdUrl. now rewrite (truthy_nonempty _ H2).
  - intros Hu Hi. unfold autoFillArgocdUrl.
    apply String.eqb_neq in Hu. rewrite Hu, Hi. now rewrite andb_false_r.
  - reflexivity.
Qed.

Lemma argocd_url_autofill_witness :
  autoFillArgocdUrl "lab.example.com" (autoFillArgocdUrl "edge.example.com" EmptyString)
  = "https://openshift-gitops-server-openshift-gitops.apps.lab.example.com"
  /\ autoFillArgocdUrl "lab.example.com" "https://argocd.example.com"
     = "https://argocd.example.com".
Proof.
  split.
  - apply (proj1 (argocd_url_autofill "edge.example.com" "lab.example.com" EmptyString)).
    discriminate.
  - apply (proj1 (proj2 (argocd_url_autofill EmptyString "lab.example.com"
                           "https://argocd.example.com"))); [discriminate | reflexivity].
Defined.

(** ** Search box and health filter *)

Section FilterFacts.

Variable toLowerCase : string -> string.
Variable lessThan : string -> string -> bool.

(** X12: with a health filter other than [All], every row has exactly that
    health.  A device whose health is missing is therefore shown under no
    health filter, not even [Unknown], although its badge has the style of
    [Unknown]. *)
Theorem health_filter_is_exact (devices : list Device.t)
    (query statusFilter : string) (sortBy : SortBy) (d : Device.t) :
  statusFilter <> "All" ->
  In d (filtered toLowerCase lessThan devices query statusFilter sortBy) ->
  Device.health d = Some statusFilter.
Proof.
  intros Hf Hin. rewrite filtered_eq in Hin.
  apply (Permutation_in _ (sortWith_perm _ _)) in Hin.
  apply List.filter_In in Hin as [_ Ha].
  unfold accepts in Ha. apply andb_true_iff in Ha as [_ Ha].
  apply String.eqb_neq in Hf. rewrite Hf in Ha. cbn [orb] in Ha.
  unfold hasHealth in Ha. destruct (Device.health d) as [h|]; [| discriminate Ha].
  apply String.eqb_eq in Ha. now subst h.
Qed.

(** X13: the search ignores the case of what is typed: two non-empty queries
    with the same lower-cased form give the same rows. *)
Theorem search_ignores_query_case (devices : list Device.t)
    (q1 q2 statusFilter : string) (sortBy : SortBy) :
  q1 <> EmptyString -> q2 <> EmptyString ->
  toLowerCase q1 = toLowerCase q2 ->
  filtered toLowerCase lessThan devices q1 statusFilter sortBy
  = filtered toLowerCase lessThan devices q2 statusFilter sortBy.
Proof.
  intros H1 H2 E. unfold filtered.
  now rewrite (truthy_nonempty _ H1), (truthy_nonempty _ H2), E.
Qed.

End FilterFacts.

Lemma health_filter_is_exact_witness :
  let ds := [normalize EmptyString (item (Some "device-pump-7") None);
             normalize EmptyString (item (Some "device-valve-2") (Some "Unknown"))] in
  map Device.deviceName
    (filtered asciiLower String.ltb ds EmptyString "Unknown" (mkSortBy byDeviceName asc))
  = ["valve"]
  /\ Device.health (normalize EmptyString (item (Some "device-valve-2") (Some "Unknown")))
     = Some "Unknown".
Proof.
  intros ds. split; [reflexivity|].
  apply (health_filter_is_exact asciiLower String.ltb ds EmptyString "Unknown"
           (mkSortBy byDeviceName asc)); [discriminate | left; reflexivity].
Defined.

Lemma search_ignores_query_case_witness :
  let ds := [deviceOf "device-valve-2"; deviceOf "device-Pump-7"] in
  filtered asciiLower String.ltb ds "PUMP" "All" (mkSortBy byDeviceId asc)
  = filtered asciiLower String.ltb ds "pump" "All" (mkSortBy byDeviceId asc).
Proof.
  intros ds.
  apply (search_ignores_query_case asciiLower String.ltb ds "PUMP" "pump");
    [discriminate | discriminate | reflexivity].
Defined.
